(** * ReelEditor: the crop tool and the preview playback surface

    A shallow embedding of [src/components/Editor/CropTool.tsx] (the crop
    tool component [CropTool] and the playback component [Preview]).

    Conventions of the embedding:
    - a JavaScript [number] is an exact rational ([Q]); comparisons are the
      boolean comparisons of [Q], [Math.abs] and [Math.max] are written out.
      Rounding of IEEE doubles and [NaN] are outside the model;
    - React state and refs are fields of explicit state records; an effect or
      an event handler is a function from the state before to the state after;
    - calls that leave the component (the [onCropApply], [onTimeUpdate],
      [onPause], ... callbacks, [toast], the methods of the media elements)
      are recorded, in order, in a trace of actions;
    - [audioRefs.current], a JS object used as a map from element id to audio
      player, is a [gmap string _]; ids are assumed not to name an inherited
      property of [Object.prototype];
    - [setTimeout] is a list of pending due times on a logical millisecond
      clock. *)

From Stdlib Require Import QArith Qabs Qround Lqa Lia List Bool String.
From Stdlib Require Import ZArith Ascii DecimalString.
From stdpp Require Import gmap strings list fin_maps.
Import ListNotations.

Local Open Scope string_scope.
Local Open Scope list_scope.
Local Open Scope Q_scope.

(** ** JavaScript numbers *)

(** [a > b] on numbers. *)
Definition gt (a b : Q) : bool := negb (Qle_bool a b).

(** [a >= b] on numbers. *)
Definition ge (a b : Q) : bool := Qle_bool b a.

(** [a <= b] on numbers. *)
Definition le (a b : Q) : bool := Qle_bool a b.

(** [Math.max(a, b)]. *)
Definition Math_max (a b : Q) : Q := if Qle_bool a b then b else a.

(** [Math.abs(a)]. *)
Definition Math_abs (a : Q) : Q := Qabs a.

(** [Math.floor(a)]; the result is an integer. *)
Definition Math_floor (a : Q) : Z := Qfloor a.

(** Rounding towards zero, as the quotient of [%] rounds. *)
Definition Math_trunc (a : Q) : Z :=
  if Qle_bool 0 a then Qfloor a else Qceiling a.

(** [a % b] on numbers: the remainder has the sign of [a]. *)
Definition rem (a b : Q) : Q := a - b * inject_Z (Math_trunc (a / b)).

(** [n.toString()] of an integer-valued number: its decimal digits, after a
    minus sign when negative (the exponent notation of numbers from 1e21 on
    is outside the model). *)
Definition toString (n : Z) : string := NilZero.string_of_int (Z.to_int n).

(** [s.padStart(targetLength, c)] for a pad string of one character [c]. *)
Definition padStart (targetLength : nat) (c : Ascii.ascii) (s : string) : string :=
  String.append
    (String.concat EmptyString
       (List.repeat (String c EmptyString) (targetLength - String.length s)))
    s.

(** ** The timeline data model ([@/types/timeline]) *)

Module timeline.

Inductive ElementType := video | audio | image | text.

Definition ElementType_eqb (a b : ElementType) : bool :=
  match a, b with
  | video, video | audio, audio | image, image | text, text => true
  | _, _ => false
  end.

(** A crop rectangle, in percent of the source dimensions. *)
Record CropRect := mkCrop { x : Q; y : Q; width : Q; height : Q }.

(** Modelled from the spec: the type-specific [content] payload, whose
    declaration is not part of the sources.  Only the fields the two
    components read are kept: [src], the optional [crop] of a video or
    image, the optional [volume] and [muted] of an audio clip. *)
Record Content := mkContent {
  src : string;
  crop : option CropRect;
  volume : option Q;
  muted : option bool
}.

(** Modelled from the spec: [TimelineElement], whose declaration is not
    part of the sources.  The positional fields, which neither component's
    logic reads, are left out; [end_] is the field [end]. *)
Record TimelineElement := mkElement {
  id : string;
  type : ElementType;
  start : Q;
  end_ : Q;
  content : Content
}.

End timeline.

Abbreviation TimelineElement := timeline.TimelineElement.
Abbreviation CropRect := timeline.CropRect.

(** ** Preview: the active-element selector *)

Module Selector.

(** [currentTime >= el.start && currentTime <= el.end]. *)
Definition inWindow (currentTime : Q) (el : TimelineElement) : bool :=
  ge currentTime (timeline.start el) && le currentTime (timeline.end_ el).

(** The predicate of [elements.find(...)] that picks the video to display. *)
Definition isActiveVideo (currentTime : Q) (el : TimelineElement) : bool :=
  timeline.ElementType_eqb (timeline.type el) timeline.video
  && inWindow currentTime el.

(** The predicate of [elements.filter(...)] that picks the audio clips. *)
Definition isActiveAudio (currentTime : Q) (el : TimelineElement) : bool :=
  timeline.ElementType_eqb (timeline.type el) timeline.audio
  && inWindow currentTime el.

(** [const videoElement = elements.find(...)]. *)
Definition videoElement (elements : list TimelineElement) (currentTime : Q)
  : option TimelineElement :=
  List.find (isActiveVideo currentTime) elements.

(** [const activeAudioElements = elements.filter(...)]. *)
Definition activeAudioElements (elements : list TimelineElement)
  (currentTime : Q) : list TimelineElement :=
  List.filter (isActiveAudio currentTime) elements.

(** The selection the component works with on one render. *)
Definition select (elements : list TimelineElement) (currentTime : Q)
  : option TimelineElement * list TimelineElement :=
  (videoElement elements currentTime, activeAudioElements elements currentTime).

(** The predicate of the [elements.filter(...)] that picks the elements
    rendered as overlays: [el.type !== "video" && el.type !== "audio" &&
    currentTime >= el.start && currentTime <= el.end]. *)
Definition isOverlay (currentTime : Q) (el : TimelineElement) : bool :=
  negb (timeline.ElementType_eqb (timeline.type el) timeline.video)
  && negb (timeline.ElementType_eqb (timeline.type el) timeline.audio)
  && inWindow currentTime el.

(** The elements rendered over the video. *)
Definition overlayElements (elements : list TimelineElement) (currentTime : Q)
  : list TimelineElement :=
  List.filter (isOverlay currentTime) elements.

(** The closed window [[start, end]] contains [currentTime]. *)
Definition contains (el : TimelineElement) (currentTime : Q) : Prop :=
  timeline.start el <= currentTime /\ currentTime <= timeline.end_ el.

End Selector.

(** ** The crop tool component *)

Module CropTool.

(** [interface AspectRatioOption]; the decorative [icon] is left out. *)
Record AspectRatioOption := mkOption {
  id : string;
  name : string;
  value : option Q   (* null for freeform *)
}.

Definition aspectRatioOptions : list AspectRatioOption :=
  [ mkOption "freeform" "Freeform" None;
    mkOption "1:1" "1:1" (Some 1);
    mkOption "16:9" "16:9" (Some (16 / 9));
    mkOption "9:16" "9:16" (Some (9 / 16));
    mkOption "5:4" "5:4" (Some (5 / 4));
    mkOption "4:5" "4:5" (Some (4 / 5));
    mkOption "4:3" "4:3" (Some (4 / 3));
    mkOption "3:4" "3:4" (Some (3 / 4));
    mkOption "3:2" "3:2" (Some (3 / 2)) ].

(** [interface CropToolProps]; the callback [onCropApply] is an action of
    the trace. *)
Record Props := mkProps {
  elements : list TimelineElement;
  selectedElementId : option string
}.

(** The [useState] cells of the component. *)
Record State := mkState {
  cropX : Q;
  cropY : Q;
  cropWidth : Q;
  cropHeight : Q;
  previewCrop : option CropRect;
  selectedAspectRatio : option string
}.

(** What the component does to the outside. *)
Inductive Action :=
| onCropApply (id : string) (crop : CropRect)
| toast_error (msg : string)
| toast_success (msg : string).

(** The initial values of the [useState] cells. *)
Definition initialState : State :=
  mkState 0 0 100 100 None (Some "freeform").

(** Truthiness of a [string | null]: null and the empty string are falsy. *)
Definition truthy (s : option string) : bool :=
  match s with
  | Some s => negb (String.eqb s EmptyString)
  | None => false
  end.

(** Truthiness of a number: zero is falsy. *)
Definition truthy_number (v : Q) : bool := negb (Qeq_bool v 0).

(** [const selectedElement = selectedElementId
      ? elements.find(el => el.id === selectedElementId) : null]. *)
Definition selectedElement (p : Props) : option TimelineElement :=
  match selectedElementId p with
  | Some sel =>
      if truthy (Some sel)
      then List.find (fun el => String.eqb (timeline.id el) sel) (elements p)
      else None
  | None => None
  end.

(** [type === 'video' || type === 'image']. *)
Definition croppable (el : TimelineElement) : bool :=
  timeline.ElementType_eqb (timeline.type el) timeline.video
  || timeline.ElementType_eqb (timeline.type el) timeline.image.

Definition defaultCrop : CropRect := timeline.mkCrop 0 0 100 100.

(** The rectangle [{ x: cropX, y: cropY, width: cropWidth, height: cropHeight }]. *)
Definition currentCrop (st : State) : CropRect :=
  timeline.mkCrop (cropX st) (cropY st) (cropWidth st) (cropHeight st).

(** The effect "reset crop values when selected element changes". *)
Definition resetOnSelection (p : Props) (st : State) : State :=
  match selectedElement p with
  | Some el =>
      if croppable el then
        let crop := match timeline.crop (timeline.content el) with
                    | Some c => c
                    | None => defaultCrop
                    end in
        mkState (timeline.x crop) (timeline.y crop)
                (timeline.width crop) (timeline.height crop)
                (Some crop) (Some "freeform")
      else st
  | None => st
  end.

(** [updatePreviewCrop(x, y, width, height)]. *)
Definition updatePreviewCrop (x y width height : Q) (st : State) : State :=
  mkState (cropX st) (cropY st) (cropWidth st) (cropHeight st)
          (Some (timeline.mkCrop x y width height)) (selectedAspectRatio st).

(** The callback of the timer that the "debounced crop application" effect
    arms on every render where a crop value, the selection or the callback
    changed; it fires 100ms later unless the effect is cleaned up first. *)
Definition debouncedCropApplication (p : Props) (st : State) : list Action :=
  match selectedElementId p with
  | Some sel =>
      if truthy (Some sel) then [onCropApply sel (currentCrop st)] else []
  | None => []
  end.

(** [handleApplyCrop], the handler of the Done button. *)
Definition handleApplyCrop (p : Props) (st : State) : State * list Action :=
  match selectedElementId p, selectedElement p with
  | Some sel, Some el =>
      if negb (truthy (Some sel)) then (st, [])
      else if negb (croppable el) then
        (st, [toast_error "Cropping is only available for video and image elements"])
      else
        let crop := currentCrop st in
        (mkState (cropX st) (cropY st) (cropWidth st) (cropHeight st)
                 (Some crop) (selectedAspectRatio st),
         [onCropApply sel crop; toast_success "Crop applied successfully"])
  | _, _ => (st, [])
  end.

(** [handleResetCrop], the handler of the Cancel button and of the reset
    control in the panel header. *)
Definition handleResetCrop (p : Props) (st : State) : State * list Action :=
  match selectedElementId p with
  | Some sel =>
      if truthy (Some sel) then
        (mkState 0 0 100 100 (Some defaultCrop) (Some "freeform"),
         [onCropApply sel defaultCrop])
      else (mkState 0 0 100 100 (previewCrop st) (Some "freeform"), [])
  | None => (mkState 0 0 100 100 (previewCrop st) (Some "freeform"), [])
  end.

(** [aspectRatioOptions.find(option => option.id === ratioId)]. *)
Definition findOption (ratioId : string) : option AspectRatioOption :=
  List.find (fun option => String.eqb (id option) ratioId) aspectRatioOptions.

(** [handleAspectRatioChange(ratioId)]. *)
Definition handleAspectRatioChange (ratioId : string) (st : State) : State :=
  let st1 := mkState (cropX st) (cropY st) (cropWidth st) (cropHeight st)
                     (previewCrop st) (Some ratioId) in
  match findOption ratioId with
  | None => st1
  | Some ratioOption =>
      match value ratioOption with
      | None => st1
      | Some r =>
          let newWidth := cropWidth st in
          let newHeight := newWidth / r in
          let '(newWidth, newHeight) :=
            if gt newHeight 100 then (100 * r, 100) else (newWidth, newHeight) in
          mkState (cropX st) (cropY st) newWidth newHeight
                  (Some (timeline.mkCrop (cropX st) (cropY st) newWidth newHeight))
                  (Some ratioId)
      end
  end.

(** The ratio the width and height sliders derive the other dimension
    from: [selectedAspectRatio && selectedAspectRatio !== "freeform"], then
    the option of that id, then [ratio && ratio.value]. *)
Definition lockedRatio (st : State) : option Q :=
  match selectedAspectRatio st with
  | Some sel =>
      if truthy (Some sel) && negb (String.eqb sel "freeform") then
        match findOption sel with
        | Some ratio =>
            match value ratio with
            | Some r => if truthy_number r then Some r else None
            | None => None
            end
        | None => None
        end
      else None
  | None => None
  end.

(** [onValueChange] of the Horizontal Position slider. *)
Definition onXChange (v : Q) (st : State) : State :=
  mkState v (cropY st) (cropWidth st) (cropHeight st)
          (previewCrop st) (selectedAspectRatio st).

(** [onValueChange] of the Vertical Position slider. *)
Definition onYChange (v : Q) (st : State) : State :=
  mkState (cropX st) v (cropWidth st) (cropHeight st)
          (previewCrop st) (selectedAspectRatio st).

(** [onValueChange] of the Width slider. *)
Definition onWidthChange (v : Q) (st : State) : State :=
  match lockedRatio st with
  | Some r =>
      mkState (cropX st) (cropY st) v (v / r)
              (previewCrop st) (selectedAspectRatio st)
  | None =>
      mkState (cropX st) (cropY st) v (cropHeight st)
              (previewCrop st) (selectedAspectRatio st)
  end.

(** [onValueChange] of the Height slider. *)
Definition onHeightChange (v : Q) (st : State) : State :=
  match lockedRatio st with
  | Some r =>
      mkState (cropX st) (cropY st) (v * r) v
              (previewCrop st) (selectedAspectRatio st)
  | None =>
      mkState (cropX st) (cropY st) (cropWidth st) v
              (previewCrop st) (selectedAspectRatio st)
  end.

(** The ratios behind the eight locked options of [aspectRatioOptions]. *)
Definition offeredRatios : list Q :=
  [1; 16 / 9; 9 / 16; 5 / 4; 4 / 5; 4 / 3; 3 / 4; 3 / 2].

(** The ratio a button of the aspect-ratio grid stands for. *)
Definition ratioOf (ratioId : string) : option Q :=
  match findOption ratioId with
  | Some ratioOption => value ratioOption
  | None => None
  end.

(** A value a slider with [min] and [max] can deliver. *)
Definition inRange (lo hi v : Q) : Prop := lo <= v /\ v <= hi.

(** The editor's working range of a crop: x, y in [0,50], width and height
    in [20,100]. *)
Definition withinBounds (st : State) : Prop :=
  inRange 0 50 (cropX st) /\ inRange 0 50 (cropY st)
  /\ inRange 20 100 (cropWidth st) /\ inRange 20 100 (cropHeight st).

(** Two states hold the same rectangle, as numbers. *)
Definition sameCrop (a b : State) : Prop :=
  cropX a == cropX b /\ cropY a == cropY b
  /\ cropWidth a == cropWidth b /\ cropHeight a == cropHeight b.

(** The ratio-lock invariant as the specification words it: the ratio of
    width to height is [r] and both lie in [20,100]. *)
Definition ratioLockInvariant (r : Q) (st : State) : Prop :=
  cropWidth st / cropHeight st == r
  /\ inRange 20 100 (cropWidth st) /\ inRange 20 100 (cropHeight st).

End CropTool.

(** ** Effects and handlers: a writer over explicit state *)

Section Eff.
Context {S A : Type}.

(** An effect or handler: the state after, and the actions it performed. *)
Definition Eff : Type := S -> S * list A.

Definition skip : Eff := fun st => (st, []).

Definition andThen (f g : Eff) : Eff := fun st =>
  let '(st1, acts1) := f st in
  let '(st2, acts2) := g st1 in
  (st2, acts1 ++ acts2).

(** [l.forEach(x => f x)]. *)
Fixpoint forEach {X : Type} (f : X -> Eff) (l : list X) : Eff :=
  match l with
  | [] => skip
  | x :: l => andThen (f x) (forEach f l)
  end.

End Eff.

Arguments Eff : clear implicits.

(** ** The preview component *)

Module Preview.

(** An [HTMLAudioElement] or [HTMLVideoElement], as far as the component
    reads and writes it. *)
Module media.
Record t := mk {
  src : string;
  currentTime : Q;
  volume : Q;
  muted : bool;
  paused : bool
}.

Definition set_currentTime (v : Q) (m : t) : t :=
  mk (src m) v (volume m) (muted m) (paused m).
Definition set_volume (v : Q) (m : t) : t :=
  mk (src m) (currentTime m) v (muted m) (paused m).
Definition set_muted (v : bool) (m : t) : t :=
  mk (src m) (currentTime m) (volume m) v (paused m).
Definition set_paused (v : bool) (m : t) : t :=
  mk (src m) (currentTime m) (volume m) (muted m) v.
End media.

(** What the effects of one render close over: the props of
    [interface PreviewProps] (the callbacks are actions) and the two
    [useState] cells [volume] and [isMuted]. *)
Record Render := mkRender {
  isPlaying : bool;
  currentTime : Q;
  duration : Q;
  elements : list TimelineElement;
  volume : Q;
  isMuted : bool
}.

(** What the component does to the outside: calls on the audio players
    (named by element id) and on the video player, and the callbacks of the
    timeline clock. *)
Inductive Action :=
| audio_new (id src : string)
| audio_seek (id : string) (t : Q)
| audio_play (id : string)
| audio_play_error (id : string)     (* console.error of a rejected play() *)
| audio_pause (id : string)
| audio_delete (id : string)
| video_seek (t : Q)
| video_play
| video_play_error                   (* console.error of a rejected play() *)
| video_pause
| onTimeUpdate (t : Q)
| onPause
| onPlay
| onRestart.

(** *** The audio track manager *)

(** The refs of the audio effects. *)
Record AudioState := mkAudio {
  audioRefs : gmap string media.t;
  activeAudioElementsRef : list TimelineElement;
  lastTimeRef : Q
}.

Section Audio.
(** Whether [play()] on a player of the given source is fulfilled (it is
    rejected when autoplay is blocked or the source cannot be decoded). *)
Variable canPlay : string -> bool.

(** [audioElement.play()] with its [catch]. *)
Definition playAudio (id : string) (audioElement : media.t)
  : media.t * list Action :=
  if canPlay (media.src audioElement)
  then (media.set_paused false audioElement, [audio_play id])
  else (audioElement, [audio_play id; audio_play_error id]).

(** [Math.max(0, currentTime - audio.start)]. *)
Definition audioLocalTime (r : Render) (audio : TimelineElement) : Q :=
  Math_max 0 (currentTime r - timeline.start audio).

(** The player of a newly active clip, after [new Audio(src)] and the
    assignments to [muted], [volume] and [currentTime]. *)
Definition newAudio (r : Render) (audio : TimelineElement) : media.t :=
  media.mk (timeline.src (timeline.content audio))
           (audioLocalTime r audio)
           (match timeline.volume (timeline.content audio) with
            | Some v => v
            | None => volume r / 100
            end)
           false
           true.

(** The body of [activeAudioElements.forEach] that creates the players. *)
Definition createAudio (r : Render) (audio : TimelineElement)
  : Eff AudioState Action := fun st =>
  match audioRefs st !! timeline.id audio with
  | Some _ => (st, [])
  | None =>
      let audioElement := newAudio r audio in
      let '(audioElement, played) :=
        if isPlaying r then playAudio (timeline.id audio) audioElement
        else (audioElement, []) in
      (mkAudio (<[timeline.id audio := audioElement]> (audioRefs st))
               (activeAudioElementsRef st) (lastTimeRef st),
       [audio_new (timeline.id audio) (timeline.src (timeline.content audio));
        audio_seek (timeline.id audio) (audioLocalTime r audio)] ++ played)
  end.

(** The player [createAudio] leaves in the pool for a clip: the new
    player, started when the timeline is playing. *)
Definition createdAudio (r : Render) (audio : TimelineElement) : media.t :=
  if isPlaying r then fst (playAudio (timeline.id audio) (newAudio r audio))
  else newAudio r audio.

(** The actions of [createAudio] for a clip without a player. *)
Definition createdActions (r : Render) (audio : TimelineElement)
  : list Action :=
  [audio_new (timeline.id audio) (timeline.src (timeline.content audio));
   audio_seek (timeline.id audio) (audioLocalTime r audio)]
  ++ (if isPlaying r
      then snd (playAudio (timeline.id audio) (newAudio r audio))
      else []).

(** The first clip of a list that carries a given id. *)
Definition findId (k : string) (l : list TimelineElement)
  : option TimelineElement :=
  List.find (fun a => String.eqb (timeline.id a) k) l.

(** [activeAudioElements.some(a => a.id === id)]. *)
Definition isActiveId (active : list TimelineElement) (id : string) : bool :=
  existsb (fun a => String.eqb (timeline.id a) id) active.

(** The body of [Object.keys(audioRefs.current).forEach] that removes the
    players of clips that are not active any more. *)
Definition removeAudio (active : list TimelineElement) (id : string)
  : Eff AudioState Action := fun st =>
  if isActiveId active id then (st, [])
  else (mkAudio (delete id (audioRefs st))
                (activeAudioElementsRef st) (lastTimeRef st),
        [audio_pause id; audio_delete id]).

(** [Object.keys(audioRefs.current)].  The keys come in the order of
    [map_to_list], which need not be the insertion order of the JS object;
    the loops over the keys are stated up to that order. *)
Definition keys (m : gmap string media.t) : list string :=
  (map_to_list m).*1.

(** The effect "find active audio elements at current time": it stores
    the active clips, creates the missing players and removes the stale
    ones. *)
Definition reconcileAudio (r : Render) : Eff AudioState Action := fun st =>
  let activeAudioElements :=
    Selector.activeAudioElements (elements r) (currentTime r) in
  let st := mkAudio (audioRefs st) activeAudioElements (lastTimeRef st) in
  andThen (forEach (createAudio r) activeAudioElements)
          (fun st => forEach (removeAudio activeAudioElements)
                             (keys (audioRefs st)) st)
          st.

(** The body of the [forEach] of the effect "synchronize audio playback
    with current time". *)
Definition syncAudio (r : Render) (audio : TimelineElement)
  : Eff AudioState Action := fun st =>
  match audioRefs st !! timeline.id audio with
  | Some audioElement =>
      if gt (Math_abs (media.currentTime audioElement - audioLocalTime r audio)) 0.2
      then (mkAudio (<[timeline.id audio :=
                         media.set_currentTime (audioLocalTime r audio) audioElement]>
                       (audioRefs st))
                    (activeAudioElementsRef st) (lastTimeRef st),
            [audio_seek (timeline.id audio) (audioLocalTime r audio)])
      else (st, [])
  | None => (st, [])
  end.

(** The player of an active clip after the body of that loop. *)
Definition syncedAudio (r : Render) (audio : TimelineElement)
  (audioElement : media.t) : media.t :=
  if gt (Math_abs (media.currentTime audioElement - audioLocalTime r audio)) 0.2
  then media.set_currentTime (audioLocalTime r audio) audioElement
  else audioElement.

(** The effect "synchronize audio playback with current time". *)
Definition syncAudioTime (r : Render) : Eff AudioState Action := fun st =>
  let '(st, acts) :=
    if gt (Math_abs (currentTime r - lastTimeRef st)) 0.1
    then forEach (syncAudio r) (activeAudioElementsRef st) st
    else (st, []) in
  (mkAudio (audioRefs st) (activeAudioElementsRef st) (currentTime r), acts).

(** [(audio.content.volume !== undefined ? audio.content.volume : 1.0)
     * (volume / 100)]. *)
Definition finalVolume (r : Render) (audio : TimelineElement) : Q :=
  (match timeline.volume (timeline.content audio) with
   | Some v => v
   | None => 1
   end) * (volume r / 100).

(** [isMuted || (audio.content.muted || false)]. *)
Definition finalMuted (r : Render) (audio : TimelineElement) : bool :=
  isMuted r || match timeline.muted (timeline.content audio) with
               | Some b => b
               | None => false
               end.

(** The body of the [forEach] of the effect "control audio playback with
    isPlaying state". *)
Definition controlAudio (r : Render) (audio : TimelineElement)
  : Eff AudioState Action := fun st =>
  match audioRefs st !! timeline.id audio with
  | None => (st, [])
  | Some audioElement =>
      let audioElement :=
        media.set_muted (finalMuted r audio)
          (media.set_volume (finalVolume r audio) audioElement) in
      let '(audioElement, acts) :=
        if isPlaying r then playAudio (timeline.id audio) audioElement
        else (media.set_paused true audioElement,
              [audio_pause (timeline.id audio)]) in
      (mkAudio (<[timeline.id audio := audioElement]> (audioRefs st))
               (activeAudioElementsRef st) (lastTimeRef st), acts)
  end.

(** The effect "control audio playback with isPlaying state"; it runs
    when [isPlaying], [isMuted] or [volume] changed. *)
Definition controlAudioPlayback (r : Render) : Eff AudioState Action :=
  fun st => forEach (controlAudio r) (activeAudioElementsRef st) st.

(** The effect "apply volume changes to all audio elements". *)
Definition applyVolume (r : Render) : Eff AudioState Action := fun st =>
  forEach (fun audio st =>
             match audioRefs st !! timeline.id audio with
             | None => (st, [])
             | Some audioElement =>
                 (mkAudio (<[timeline.id audio :=
                               media.set_muted (finalMuted r audio)
                                 (media.set_volume (finalVolume r audio)
                                    audioElement)]> (audioRefs st))
                          (activeAudioElementsRef st) (lastTimeRef st), [])
             end)
          (activeAudioElementsRef st) st.

(** The cleanup of the effect "cleanup audio elements on unmount". *)
Definition unmount : Eff AudioState Action := fun st =>
  (mkAudio ∅ (activeAudioElementsRef st) (lastTimeRef st),
   List.map audio_pause (keys (audioRefs st))).

End Audio.

(** *** The video playback binder *)

(** [videoRef.current] (null while no video is rendered), the ref
    [timeUpdateBlocker], the [useState] cells [videoEnded] and
    [isBuffering], and the timers armed by [setTimeout]: the logical time
    [now] in milliseconds and the due times of the pending callbacks, each
    of which runs [timeUpdateBlocker.current = false]. *)
Record VideoState := mkVideo {
  videoRef : option media.t;
  timeUpdateBlocker : bool;
  videoEnded : bool;
  isBuffering : bool;
  timers : list nat;
  now : nat
}.

(** The listener of the player's [timeupdate] event. *)
Definition handleTimeUpdate : Eff VideoState Action := fun st =>
  match videoRef st with
  | Some videoElement =>
      if timeUpdateBlocker st then (st, [])
      else (st, [onTimeUpdate (media.currentTime videoElement)])
  | None => (st, [])
  end.

(** The listener of the player's [ended] event. *)
Definition handleVideoEnd : Eff VideoState Action := fun st =>
  (mkVideo (videoRef st) (timeUpdateBlocker st) true (isBuffering st)
           (timers st) (now st),
   [onPause]).

(** The listener of the player's [waiting] event. *)
Definition handleWaiting : Eff VideoState Action := fun st =>
  (mkVideo (videoRef st) (timeUpdateBlocker st) (videoEnded st) true
           (timers st) (now st),
   []).

(** The listener of the player's [playing] event. *)
Definition handlePlaying : Eff VideoState Action := fun st =>
  (mkVideo (videoRef st) (timeUpdateBlocker st) (videoEnded st) false
           (timers st) (now st),
   []).

(** The effect "improved play/pause handling"; [canPlay] tells whether
    [videoElement.play()] is fulfilled. *)
Definition playPause (canPlay : string -> bool) (r : Render)
  : Eff VideoState Action := fun st =>
  match videoRef st with
  | None => (st, [])
  | Some videoElement =>
      if isPlaying r then
        (* Reset if video had ended *)
        let restart :=
          videoEnded st && ge (currentTime r) (duration r - 0.1) in
        let videoElement :=
          if restart then media.set_currentTime 0 videoElement
          else videoElement in
        let blocker := if restart then false else timeUpdateBlocker st in
        let reset := if restart then [onTimeUpdate 0; video_seek 0] else [] in
        let videoElement := media.set_muted (isMuted r) videoElement in
        let '(videoElement, played) :=
          if canPlay (media.src videoElement)
          then (media.set_paused false videoElement, [video_play])
          else (videoElement, [video_play; video_play_error; onPause]) in
        (mkVideo (Some videoElement) blocker false (isBuffering st)
                 (timers st) (now st),
         reset ++ played)
      else
        (mkVideo (Some (media.set_paused true videoElement))
                 (timeUpdateBlocker st) (videoEnded st) (isBuffering st)
                 (timers st) (now st),
         [video_pause])
  end.

(** The effect "optimized time synchronization"; it runs when
    [currentTime] changed. *)
Definition timeSync (r : Render) : Eff VideoState Action := fun st =>
  match videoRef st with
  | None => (st, [])
  | Some videoElement =>
      if gt (Math_abs (media.currentTime videoElement - currentTime r)) 0.2
      then (mkVideo (Some (media.set_currentTime (currentTime r) videoElement))
                    true (videoEnded st) (isBuffering st)
                    (timers st ++ [(now st + 50)%nat]) (now st),
            [video_seek (currentTime r)])
      else (st, [])
  end.

(** The effect "apply volume change to video". *)
Definition applyVideoVolume (r : Render) : Eff VideoState Action := fun st =>
  match videoRef st with
  | None => (st, [])
  | Some videoElement =>
      (mkVideo (Some (media.set_muted (isMuted r)
                        (media.set_volume (volume r / 100) videoElement)))
               (timeUpdateBlocker st) (videoEnded st) (isBuffering st)
               (timers st) (now st),
       [])
  end.

(** [handleRestart]. *)
Definition handleRestart : Eff VideoState Action := fun st =>
  (mkVideo (videoRef st) (timeUpdateBlocker st) false (isBuffering st)
           (timers st) (now st),
   [onRestart]).

(** [handlePlay], the handler of the Play button. *)
Definition handlePlay (r : Render) : Eff VideoState Action :=
  andThen (fun st =>
             if videoEnded st || ge (currentTime r) (duration r - 0.1)
             then handleRestart st
             else (st, []))
          (fun st => (st, [onPlay])).

(** The passage of [ms] milliseconds: every timer that is due by then
    fires and clears [timeUpdateBlocker]. *)
Definition elapse (ms : nat) (st : VideoState) : VideoState :=
  let now' := (now st + ms)%nat in
  let due := List.filter (fun t => Nat.leb t now') (timers st) in
  mkVideo (videoRef st)
          (match due with [] => timeUpdateBlocker st | _ :: _ => false end)
          (videoEnded st) (isBuffering st)
          (List.filter (fun t => negb (Nat.leb t now')) (timers st))
          now'.

(** The player of an active clip after the body of the volume loop. *)
Definition volumedAudio (r : Render) (audio : TimelineElement)
  (audioElement : media.t) : media.t :=
  media.set_muted (finalMuted r audio)
    (media.set_volume (finalVolume r audio) audioElement).

(** The player of an active clip after the body of the transport loop. *)
Definition controlledAudio (canPlay : string -> bool) (r : Render)
  (audio : TimelineElement) (audioElement : media.t) : media.t :=
  if isPlaying r
  then fst (playAudio canPlay (timeline.id audio) (volumedAudio r audio audioElement))
  else media.set_paused true (volumedAudio r audio audioElement).

(** An action on an audio player, as opposed to one on the video player or a
    callback of the timeline clock. *)
Definition isAudioAction (act : Action) : bool :=
  match act with
  | audio_new _ _ | audio_seek _ _ | audio_play _ | audio_play_error _
  | audio_pause _ | audio_delete _ => true
  | _ => false
  end.

(** The raised blocker has a reset timer pending. *)
Definition blockerArmed (st : VideoState) : Prop :=
  timeUpdateBlocker st = true -> timers st <> [].

(** [formatTime(timeInSeconds)]. *)
Definition formatTime (timeInSeconds : Q) : string :=
  let minutes := Math_floor (timeInSeconds / 60) in
  let seconds := Math_floor (rem timeInSeconds 60) in
  String.append (padStart 2 "0"%char (toString minutes))
    (String.append ":" (padStart 2 "0"%char (toString seconds))).

(** Which of the values the audio effects depend on differ from the
    previous render; on mount all of them count as changed. *)
Record Changed := mkChanged {
  elementsChanged : bool;
  currentTimeChanged : bool;
  isPlayingChanged : bool;
  volumeChanged : bool;
  isMutedChanged : bool
}.

(** An effect runs when one of its dependencies changed. *)
Definition when (b : bool) (f : Eff AudioState Action) : Eff AudioState Action :=
  if b then f else skip.

(** The audio effects of one commit, in the order the component declares
    them, each guarded by its dependency array: [[elements, currentTime,
    isPlaying, volume]], [[currentTime]], [[isPlaying, isMuted, volume]] and
    [[volume, isMuted]]. *)
Definition audioEffects (canPlay : string -> bool) (c : Changed) (r : Render)
  : Eff AudioState Action :=
  andThen
    (when (elementsChanged c || currentTimeChanged c
           || isPlayingChanged c || volumeChanged c)
          (reconcileAudio canPlay r))
    (andThen
       (when (currentTimeChanged c) (syncAudioTime r))
       (andThen
          (when (isPlayingChanged c || isMutedChanged c || volumeChanged c)
                (controlAudioPlayback canPlay r))
          (when (volumeChanged c || isMutedChanged c) (applyVolume r)))).

(** The implicit restart as the specification words it, for the effect
    that reacts to [isPlaying] becoming true: when the video had ended or
    [currentTime >= duration - 0.1], the clock is forced to 0. *)
Definition restartsOnPlay (canPlay : string -> bool) (r : Render)
  (st : VideoState) : Prop :=
  isPlaying r = true ->
  videoEnded st = true \/ duration r - 0.1 <= currentTime r ->
  In (onTimeUpdate 0) (snd (playPause canPlay r st)).

End Preview.

(** ** Theorems *)

Lemma ElementType_eqb_eq a b :
  timeline.ElementType_eqb a b = true <-> a = b.
Proof. destruct a, b; simpl; split; congruence. Qed.

Lemma inWindow_contains t el :
  Selector.inWindow t el = true <-> Selector.contains el t.
Proof.
  unfold Selector.inWindow, Selector.contains, ge, le.
  rewrite andb_true_iff, !Qle_bool_iff. tauto.
Qed.

Lemma isActiveVideo_spec t el :
  Selector.isActiveVideo t el = true <->
  timeline.type el = timeline.video /\ Selector.contains el t.
Proof.
  unfold Selector.isActiveVideo.
  rewrite andb_true_iff, ElementType_eqb_eq, inWindow_contains. tauto.
Qed.

Lemma isActiveAudio_spec t el :
  Selector.isActiveAudio t el = true <->
  timeline.type el = timeline.audio /\ Selector.contains el t.
Proof.
  unfold Selector.isActiveAudio.
  rewrite andb_true_iff, ElementType_eqb_eq, inWindow_contains. tauto.
Qed.

(** [List.find] returns the first element that satisfies the predicate. *)
Lemma find_first {A} (p : A -> bool) (l : list A) :
  match List.find p l with
  | Some a => exists l1 l2, l = l1 ++ a :: l2 /\ p a = true
                            /\ forall b, In b l1 -> p b = false
  | None => forall b, In b l -> p b = false
  end.
Proof.
  induction l as [|a l IH]; simpl.
  - intros b [].
  - destruct (p a) eqn:Ha.
    + exists [], l. repeat split; auto. intros b [].
    + destruct (List.find p l) as [c|].
      * destruct IH as (l1 & l2 & -> & Hc & Hl1).
        exists (a :: l1), l2. repeat split; auto.
        intros b [<-|Hb]; auto.
      * intros b [<-|Hb]; auto.
Qed.

(** C1: for every element list and every currentTime the selector returns
    at most one video element, which is the first element in list order of
    type video whose closed window contains currentTime (and none exactly
    when no such element exists), together with exactly the elements of type
    audio whose window contains currentTime, in list order; no audio element
    whose window does not contain currentTime is returned.  The selection is
    a function of the element list and currentTime alone. *)
Theorem C1_selector_correct (elements : list TimelineElement) (currentTime : Q) :
  (match fst (Selector.select elements currentTime) with
   | Some v =>
       exists before after,
         elements = before ++ v :: after
         /\ timeline.type v = timeline.video
         /\ Selector.contains v currentTime
         /\ forall e, In e before ->
              ~ (timeline.type e = timeline.video /\ Selector.contains e currentTime)
   | None =>
       forall e, In e elements ->
         ~ (timeline.type e = timeline.video /\ Selector.contains e currentTime)
   end)
  /\ (forall a, In a (snd (Selector.select elements currentTime)) <->
        In a elements /\ timeline.type a = timeline.audio
        /\ Selector.contains a currentTime)
  /\ snd (Selector.select elements currentTime)
     = List.filter (Selector.isActiveAudio currentTime) elements
  /\ (forall a, ~ Selector.contains a currentTime ->
        ~ In a (snd (Selector.select elements currentTime))).
Proof.
  unfold Selector.select, Selector.videoElement, Selector.activeAudioElements.
  simpl. repeat split.
  - pose proof (find_first (Selector.isActiveVideo currentTime) elements) as H.
    destruct (List.find _ elements) as [v|].
    + destruct H as (l1 & l2 & -> & Hv & Hl1).
      apply isActiveVideo_spec in Hv as [Hty Hin].
      exists l1, l2. repeat split; auto; try apply Hin.
      intros e He Hc. apply isActiveVideo_spec in Hc.
      rewrite (Hl1 e He) in Hc. discriminate.
    + intros e He Hc. apply isActiveVideo_spec in Hc.
      rewrite (H e He) in Hc. discriminate.
  - apply filter_In in H. tauto.
  - apply filter_In in H as [_ H]. apply isActiveAudio_spec in H. tauto.
  - apply filter_In in H as [_ H]. apply isActiveAudio_spec in H.
    destruct H as [_ [H _]]. exact H.
  - apply filter_In in H as [_ H]. apply isActiveAudio_spec in H.
    destruct H as [_ [_ H]]. exact H.
  - intros (Hin & Hty & Hc). apply filter_In. split; auto.
    apply isActiveAudio_spec. auto.
  - intros a Hn Ha. apply filter_In in Ha as [_ Ha].
    apply isActiveAudio_spec in Ha. tauto.
Qed.

(** *** The crop tool *)

Section CropToolFacts.
Import CropTool.

Lemma findOption_value ratioId ratioOption r :
  findOption ratioId = Some ratioOption -> value ratioOption = Some r ->
  In r offeredRatios.
Proof.
  unfold findOption. intros H Hv. apply find_some in H as [H _].
  unfold aspectRatioOptions in H. simpl in H.
  repeat (destruct H as [<-|H];
          [simpl in Hv; try discriminate; injection Hv as <-; simpl; tauto|]).
  destruct H.
Qed.

Lemma lockedRatio_offered st r :
  lockedRatio st = Some r -> In r offeredRatios.
Proof.
  unfold lockedRatio.
  destruct (selectedAspectRatio st) as [sel|]; [|discriminate].
  destruct (_ && _); [|discriminate].
  destruct (findOption sel) as [o|] eqn:Ho; [|discriminate].
  destruct (value o) as [v|] eqn:Hv; [|discriminate].
  destruct (truthy_number v); [|discriminate].
  intros [= <-]. eapply findOption_value; eauto.
Qed.

Lemma offered_cases r :
  In r offeredRatios ->
  r = 1 \/ r = 16 # 9 \/ r = 9 # 16 \/ r = 5 # 4 \/ r = 4 # 5
  \/ r = 4 # 3 \/ r = 3 # 4 \/ r = 3 # 2.
Proof. unfold offeredRatios. simpl. intuition auto. Qed.

Lemma ratioOf_offered ratioId r : ratioOf ratioId = Some r -> In r offeredRatios.
Proof.
  unfold ratioOf. destruct (findOption ratioId) as [o|] eqn:Ho; [|discriminate].
  intros Hv. eapply findOption_value; eauto.
Qed.

Lemma gt_true a b : gt a b = true <-> b < a.
Proof.
  unfold gt. rewrite negb_true_iff, <- not_true_iff_false, Qle_bool_iff.
  split; [apply Qnot_le_lt | apply Qlt_not_le].
Qed.

Lemma gt_false a b : gt a b = false <-> a <= b.
Proof. unfold gt. rewrite negb_false_iff. apply Qle_bool_iff. Qed.

End CropToolFacts.

(** Case analysis on an offered ratio, with the divisions by it turned into
    multiplications by a constant. *)
Ltac offered_ratio H :=
  apply offered_cases in H;
  repeat (destruct H as [H|H]); subst;
  unfold CropTool.inRange, Qdiv in *; cbn [Qinv Qnum Qden] in *.

(** C5 fails as stated: with the 9:16 ratio locked, dragging the width
    slider to 100 sets the height to 100 / (9/16) = 1600/9, above 100, and
    nothing clamps it. *)
Lemma C5_counterexample :
  let st := CropTool.handleAspectRatioChange "9:16" CropTool.initialState in
  CropTool.lockedRatio st = Some (9 / 16)
  /\ CropTool.cropHeight (CropTool.onWidthChange 100 st) == 1600 # 9
  /\ ~ CropTool.ratioLockInvariant (9 / 16) (CropTool.onWidthChange 100 st).
Proof.
  simpl. split; [reflexivity|]. split; [reflexivity|].
  intros (_ & _ & _ & H). revert H. apply Qlt_not_le. reflexivity.
Qed.

(** C5, amended: after a width edit [v] (respectively a height edit [v])
    delivered by the slider, so within [20,100], under a locked ratio [r],
    the component sets height = v / r (respectively width = v * r) and
    applies no clamp: width / height equals r, the edited dimension lies in
    [20,100], and the derived dimension lies in [20,100] exactly when
    20 r <= v <= 100 r (respectively 20 <= v r <= 100). *)
Theorem C5_ratio_lock_unclamped (st : CropTool.State) (r v : Q) :
  CropTool.lockedRatio st = Some r ->
  CropTool.inRange 20 100 v ->
  (let st' := CropTool.onWidthChange v st in
   CropTool.cropWidth st' = v
   /\ CropTool.cropHeight st' = v / r
   /\ CropTool.cropWidth st' / CropTool.cropHeight st' == r
   /\ CropTool.inRange 20 100 (CropTool.cropWidth st')
   /\ (CropTool.inRange 20 100 (CropTool.cropHeight st')
       <-> CropTool.inRange (20 * r) (100 * r) v))
  /\ (let st' := CropTool.onHeightChange v st in
      CropTool.cropHeight st' = v
      /\ CropTool.cropWidth st' = v * r
      /\ CropTool.cropWidth st' / CropTool.cropHeight st' == r
      /\ CropTool.inRange 20 100 (CropTool.cropHeight st')
      /\ (CropTool.inRange 20 100 (CropTool.cropWidth st')
          <-> CropTool.inRange 20 100 (v * r))).
Proof.
  intros Hr Hv. unfold CropTool.onWidthChange, CropTool.onHeightChange.
  rewrite Hr. cbn [CropTool.cropWidth CropTool.cropHeight].
  apply lockedRatio_offered in Hr.
  assert (0 < v) by (destruct Hv; lra).
  split; (split; [reflexivity|]); (split; [reflexivity|]);
    (split; [|split; [exact Hv|]]).
  - offered_ratio Hr; field; lra.
  - offered_ratio Hr; lra.
  - offered_ratio Hr; field; lra.
  - tauto.
Qed.

Lemma C5_ratio_lock_unclamped_witness :
  let st := CropTool.handleAspectRatioChange "16:9"
              (CropTool.mkState 0 0 50 50 None (Some "freeform")) in
  CropTool.lockedRatio st = Some (16 / 9)
  /\ CropTool.inRange 20 100 80
  /\ CropTool.cropHeight (CropTool.onWidthChange 80 st) = 80 / (16 / 9)
  /\ CropTool.cropWidth (CropTool.onWidthChange 80 st)
     / CropTool.cropHeight (CropTool.onWidthChange 80 st) == 16 / 9.
Proof.
  intros st.
  assert (Hr : CropTool.lockedRatio st = Some (16 / 9)) by reflexivity.
  assert (Hv : CropTool.inRange 20 100 80) by (split; discriminate).
  split; [exact Hr|]. split; [exact Hv|].
  destruct (C5_ratio_lock_unclamped st (16 / 9) 80 Hr Hv) as [(_ & H1 & H2 & _) _].
  exact (conj H1 H2).
Defined.

(** C6 fails as stated: from the rectangle of width 20 in the working
    range, choosing 16:9 sets the height to 20 / (16/9) = 45/4, below 20. *)
Lemma C6_counterexample :
  let st := CropTool.mkState 0 0 20 20 None (Some "freeform") in
  CropTool.withinBounds st
  /\ CropTool.ratioOf "16:9" = Some (16 / 9)
  /\ CropTool.cropHeight (CropTool.handleAspectRatioChange "16:9" st) == 45 # 4
  /\ ~ CropTool.withinBounds (CropTool.handleAspectRatioChange "16:9" st).
Proof.
  simpl. split.
  - unfold CropTool.withinBounds, CropTool.inRange. simpl.
    repeat split; discriminate.
  - split; [reflexivity|]. split; [reflexivity|].
    intros (_ & _ & _ & H & _). revert H. apply Qlt_not_le. reflexivity.
Qed.

(** C6, amended: when a locked ratio r is selected, the component recomputes
    height = width / r from the current width and, if that exceeds 100, sets
    height = 100 and width = 100 r instead.  For every starting rectangle in
    the working range and every offered ratio, x and y are unchanged (so in
    [0,50]), width = height * r, the width lies in [20,100], and the height
    lies in [45/4,100]: it never exceeds 100, and it is at least 20 exactly
    when the starting width is at least 20 r. *)
Theorem C6_aspect_ratio_change (st : CropTool.State) (ratioId : string) (r : Q) :
  CropTool.ratioOf ratioId = Some r ->
  CropTool.withinBounds st ->
  let st' := CropTool.handleAspectRatioChange ratioId st in
  (CropTool.cropWidth st / r <= 100 ->
     CropTool.cropWidth st' = CropTool.cropWidth st
     /\ CropTool.cropHeight st' = CropTool.cropWidth st / r)
  /\ (100 < CropTool.cropWidth st / r ->
        CropTool.cropHeight st' = 100 /\ CropTool.cropWidth st' = 100 * r)
  /\ CropTool.cropX st' = CropTool.cropX st
  /\ CropTool.cropY st' = CropTool.cropY st
  /\ CropTool.inRange 0 50 (CropTool.cropX st')
  /\ CropTool.inRange 0 50 (CropTool.cropY st')
  /\ CropTool.cropWidth st' == CropTool.cropHeight st' * r
  /\ CropTool.inRange 20 100 (CropTool.cropWidth st')
  /\ CropTool.inRange (45 # 4) 100 (CropTool.cropHeight st')
  /\ (20 <= CropTool.cropHeight st' <-> 20 * r <= CropTool.cropWidth st)
  /\ CropTool.selectedAspectRatio st' = Some ratioId.
Proof.
  intros Hr (Hx & Hy & Hw & Hh) st'. subst st'.
  unfold CropTool.handleAspectRatioChange.
  pose proof Hr as Hin. apply ratioOf_offered in Hin.
  unfold CropTool.ratioOf in Hr.
  destruct (CropTool.findOption ratioId) as [o|]; [|discriminate].
  rewrite Hr. clear Hr o.
  set (w := CropTool.cropWidth st) in *.
  destruct (gt (w / r) 100) eqn:Hgt;
    [apply gt_true in Hgt | apply gt_false in Hgt];
    cbn [CropTool.cropWidth CropTool.cropHeight CropTool.cropX CropTool.cropY
         CropTool.selectedAspectRatio].
  - split; [intros H; exfalso; lra|]. split; [auto|].
    do 4 (split; [reflexivity || assumption|]).
    destruct Hw as [Hw1 Hw2].
    repeat split; try (offered_ratio Hin; lra).
  - split; [auto|]. split; [intros H; exfalso; lra|].
    do 4 (split; [reflexivity || assumption|]).
    destruct Hw as [Hw1 Hw2].
    repeat split; try (offered_ratio Hin; first [lra | field]).
Qed.

Lemma C6_aspect_ratio_change_witness :
  let st := CropTool.mkState 0 0 100 100 None (Some "freeform") in
  CropTool.ratioOf "9:16" = Some (9 / 16)
  /\ CropTool.withinBounds st
  /\ CropTool.cropWidth (CropTool.handleAspectRatioChange "9:16" st)
     == CropTool.cropHeight (CropTool.handleAspectRatioChange "9:16" st) * (9 / 16)
  /\ CropTool.inRange 20 100
       (CropTool.cropWidth (CropTool.handleAspectRatioChange "9:16" st)).
Proof.
  intros st.
  assert (Hr : CropTool.ratioOf "9:16" = Some (9 / 16)) by reflexivity.
  assert (Hb : CropTool.withinBounds st).
  { unfold CropTool.withinBounds, CropTool.inRange. simpl.
    repeat split; discriminate. }
  split; [exact Hr|]. split; [exact Hb|].
  destruct (C6_aspect_ratio_change st "9:16" (9 / 16) Hr Hb)
    as (_ & _ & _ & _ & _ & _ & H1 & H2 & _).
  exact (conj H1 H2).
Defined.

Lemma selectedElement_truthy p sel el :
  CropTool.selectedElementId p = Some sel ->
  CropTool.selectedElement p = Some el ->
  CropTool.truthy (Some sel) = true
  /\ In el (CropTool.elements p) /\ timeline.id el = sel.
Proof.
  unfold CropTool.selectedElement. intros ->.
  destruct (CropTool.truthy (Some sel)); [|discriminate].
  intros H. apply find_some in H as [Hin Heq].
  apply String.eqb_eq in Heq. auto.
Qed.

(** C9 (what the code does): when the selected element is neither a video
    nor an image, [handleApplyCrop] shows the error notice, leaves the state
    as it is and does not call [onCropApply]; but the timer of the debounced
    crop application, armed by the same selection, calls [onCropApply] with
    that element's id and the crop values left in the state. *)
Theorem C9_unsupported_target (p : CropTool.Props) (st : CropTool.State)
    (sel : string) (el : TimelineElement) :
  CropTool.selectedElementId p = Some sel ->
  CropTool.selectedElement p = Some el ->
  timeline.type el <> timeline.video ->
  timeline.type el <> timeline.image ->
  CropTool.handleApplyCrop p st
  = (st, [CropTool.toast_error
            "Cropping is only available for video and image elements"])
  /\ CropTool.resetOnSelection p st = st
  /\ CropTool.debouncedCropApplication p st
     = [CropTool.onCropApply sel (CropTool.currentCrop st)].
Proof.
  intros Hsel Hel Hv Hi.
  destruct (selectedElement_truthy p sel el Hsel Hel) as (Ht & _ & _).
  assert (Hc : CropTool.croppable el = false).
  { unfold CropTool.croppable. destruct (timeline.type el); simpl; congruence. }
  unfold CropTool.handleApplyCrop, CropTool.resetOnSelection,
    CropTool.debouncedCropApplication.
  rewrite Hsel, Hel, Ht, Hc. simpl. auto.
Qed.

Lemma C9_unsupported_target_witness :
  let caption := timeline.mkElement "t1" timeline.text 0 5
                   (timeline.mkContent "caption" None None None) in
  let p := CropTool.mkProps [caption] (Some "t1") in
  let st := CropTool.mkState 10 10 60 40 None (Some "freeform") in
  CropTool.selectedElementId p = Some "t1"
  /\ CropTool.selectedElement p = Some caption
  /\ timeline.type caption <> timeline.video
  /\ timeline.type caption <> timeline.image
  /\ CropTool.debouncedCropApplication p st
     = [CropTool.onCropApply "t1" (timeline.mkCrop 10 10 60 40)].
Proof.
  intros caption p st.
  assert (H1 : CropTool.selectedElementId p = Some "t1") by reflexivity.
  assert (H2 : CropTool.selectedElement p = Some caption) by reflexivity.
  assert (H3 : timeline.type caption <> timeline.video) by discriminate.
  assert (H4 : timeline.type caption <> timeline.image) by discriminate.
  repeat (split; [assumption|]).
  exact (proj2 (proj2 (C9_unsupported_target p st "t1" caption H1 H2 H3 H4))).
Defined.

(** C10: pressing Cancel, or the reset control, with an element selected
    does not restore that element's stored crop: whatever the elements and
    the state are, the working crop becomes the full frame
    {x:0, y:0, width:100, height:100}, the aspect-ratio choice becomes
    freeform, and the full frame is committed at once through
    [onCropApply] with the selected id. *)
Theorem C10_cancel_commits_full_frame (p : CropTool.Props) (st : CropTool.State)
    (sel : string) :
  CropTool.selectedElementId p = Some sel ->
  sel <> EmptyString ->
  let '(st', actions) := CropTool.handleResetCrop p st in
  CropTool.currentCrop st' = timeline.mkCrop 0 0 100 100
  /\ CropTool.previewCrop st' = Some (timeline.mkCrop 0 0 100 100)
  /\ CropTool.selectedAspectRatio st' = Some "freeform"
  /\ actions = [CropTool.onCropApply sel (timeline.mkCrop 0 0 100 100)].
Proof.
  intros Hsel Hne. unfold CropTool.handleResetCrop. rewrite Hsel.
  assert (Ht : CropTool.truthy (Some sel) = true).
  { simpl. apply negb_true_iff. apply String.eqb_neq. exact Hne. }
  rewrite Ht. simpl. auto.
Qed.

Lemma C10_cancel_commits_full_frame_witness :
  let clip := timeline.mkElement "v1" timeline.video 0 10
                (timeline.mkContent "clip.mp4"
                   (Some (timeline.mkCrop 10 5 60 40)) None None) in
  let p := CropTool.mkProps [clip] (Some "v1") in
  let st := CropTool.resetOnSelection p CropTool.initialState in
  CropTool.selectedElementId p = Some "v1"
  /\ "v1" <> EmptyString
  /\ CropTool.currentCrop st = timeline.mkCrop 10 5 60 40
  /\ snd (CropTool.handleResetCrop p st)
     = [CropTool.onCropApply "v1" (timeline.mkCrop 0 0 100 100)].
Proof.
  intros clip p st.
  assert (H1 : CropTool.selectedElementId p = Some "v1") by reflexivity.
  assert (H2 : "v1" <> EmptyString) by discriminate.
  split; [exact H1|]. split; [exact H2|]. split; [reflexivity|].
  pose proof (C10_cancel_commits_full_frame p st "v1" H1 H2) as H.
  destruct (CropTool.handleResetCrop p st) as [st' actions].
  exact (proj2 (proj2 (proj2 H))).
Defined.

(** *** Effects *)

Section EffFacts.
Context {S A : Type}.
Implicit Types f g : Eff S A.

Lemma andThen_fst f g st : fst (andThen f g st) = fst (g (fst (f st))).
Proof. unfold andThen. destruct (f st) as [st1 a1]. simpl. destruct (g st1); auto. Qed.

Lemma andThen_snd f g st :
  snd (andThen f g st) = snd (f st) ++ snd (g (fst (f st))).
Proof. unfold andThen. destruct (f st) as [st1 a1]. simpl. destruct (g st1); auto. Qed.

Lemma forEach_cons_fst {X} (h : X -> Eff S A) x l st :
  fst (forEach h (x :: l) st) = fst (forEach h l (fst (h x st))).
Proof. simpl. apply andThen_fst. Qed.

Lemma forEach_cons_snd {X} (h : X -> Eff S A) x l st :
  snd (forEach h (x :: l) st) = snd (h x st) ++ snd (forEach h l (fst (h x st))).
Proof. simpl. apply andThen_snd. Qed.

(** A property of the state that every step keeps is kept by the loop. *)
Lemma forEach_invariant {X} (h : X -> Eff S A) (P : S -> Prop) l :
  (forall x st, P st -> P (fst (h x st))) ->
  forall st, P st -> P (fst (forEach h l st)).
Proof.
  intros Hstep. induction l as [|x l IH]; intros st Hst; [exact Hst|].
  rewrite forEach_cons_fst. apply IH, Hstep, Hst.
Qed.

End EffFacts.

(** *** The audio track manager *)

Section AudioFacts.
Import Preview.
Implicit Types (st : AudioState) (r : Render) (a : TimelineElement).

Lemma keys_spec (m : gmap string media.t) k : In k (keys m) <-> is_Some (m !! k).
Proof.
  unfold keys. rewrite <- list_elem_of_In, list_elem_of_fmap. split.
  - intros ([k' p] & -> & H). apply elem_of_map_to_list in H. eauto.
  - intros [p H]. exists (k, p). split; auto. by apply elem_of_map_to_list.
Qed.

Lemma isActiveId_spec active k :
  isActiveId active k = true <-> exists a, In a active /\ timeline.id a = k.
Proof.
  unfold isActiveId. rewrite existsb_exists.
  split; intros (a & Ha & Hk); exists a; split; auto; by apply String.eqb_eq.
Qed.

Lemma findId_None k l : findId k l = None <-> ~ In k (List.map timeline.id l).
Proof.
  unfold findId. induction l as [|b l IH]; simpl; [tauto|].
  destruct (String.eqb_spec (timeline.id b) k) as [->|Hne].
  - split; [discriminate|]. tauto.
  - rewrite IH. tauto.
Qed.

Lemma findId_NoDup a l :
  NoDup (List.map timeline.id l) -> In a l -> findId (timeline.id a) l = Some a.
Proof.
  unfold findId. induction l as [|b l IH]; simpl; [tauto|].
  intros Hnd [->|Hin].
  - by rewrite String.eqb_refl.
  - apply NoDup_cons in Hnd as [Hb Hnd].
    destruct (String.eqb_spec (timeline.id b) (timeline.id a)) as [Heq|Hne].
    + exfalso. apply Hb. rewrite Heq. apply list_elem_of_In. by apply in_map.
    + auto.
Qed.

Lemma NoDup_filter_ids (p : TimelineElement -> bool) l :
  NoDup (List.map timeline.id l) -> NoDup (List.map timeline.id (List.filter p l)).
Proof.
  induction l as [|b l IH]; simpl; [auto|].
  intros Hnd. apply NoDup_cons in Hnd as [Hb Hnd].
  destruct (p b); simpl; auto.
  apply NoDup_cons. split; auto.
  intros Hin. apply Hb. apply list_elem_of_In in Hin.
  apply in_map_iff in Hin as (c & Hc & Hin).
  apply filter_In in Hin as [Hin _]. rewrite <- Hc.
  apply list_elem_of_In. by apply in_map.
Qed.

(** **** Teardown *)

(** After the teardown loop a stale key among those visited is gone, and
    every other key holds what it held. *)
Lemma remove_forEach_lookup active ks st k :
  (isActiveId active k = false -> In k ks ->
     audioRefs (fst (forEach (removeAudio active) ks st)) !! k = None)
  /\ (isActiveId active k = true \/ ~ In k ks ->
        audioRefs (fst (forEach (removeAudio active) ks st)) !! k
        = audioRefs st !! k).
Proof.
  revert st. induction ks as [|x ks IH]; intros st.
  - split; [intros _ [] | reflexivity].
  - rewrite forEach_cons_fst.
    destruct (IH (fst (removeAudio active x st))) as [IH1 IH2].
    unfold removeAudio in *.
    destruct (isActiveId active x) eqn:Hx; cbn [fst audioRefs] in *.
    + split.
      * intros Hk [->|Hin]; [congruence | by apply IH1].
      * intros [Hk|Hn]; apply IH2; [by left | right].
        intros Hin. apply Hn. by right.
    + split.
      * intros Hk [->|Hin]; [|by apply IH1].
        destruct (in_dec string_dec k ks) as [Hin|Hin]; [by apply IH1|].
        rewrite IH2 by (by right). apply lookup_delete_eq.
      * intros Hor.
        assert (x <> k) as Hne.
        { intros ->. destruct Hor as [Hk|Hn]; [congruence|]. apply Hn. by left. }
        rewrite IH2, lookup_delete_ne; [done..|].
        destruct Hor as [Hk|Hn]; [by left | right].
        intros Hin. apply Hn. by right.
Qed.

(** The actions of the teardown loop: one pause and one removal per stale
    key, in the order of the keys. *)
Lemma remove_forEach_actions active ks st :
  snd (forEach (removeAudio active) ks st)
  = flat_map (fun id => if isActiveId active id then []
                        else [audio_pause id; audio_delete id]) ks.
Proof.
  revert st. induction ks as [|x ks IH]; intros st; [done|].
  rewrite forEach_cons_snd, IH. unfold removeAudio. simpl.
  by destruct (isActiveId active x).
Qed.

Lemma stale_actions active ks k :
  In k ks -> isActiveId active k = false ->
  exists before after,
    flat_map (fun id => if isActiveId active id then []
                        else [audio_pause id; audio_delete id]) ks
    = before ++ [audio_pause k; audio_delete k] ++ after.
Proof.
  intros Hin Hk. apply in_split in Hin as (l1 & l2 & ->).
  rewrite flat_map_app. simpl. rewrite Hk. eauto.
Qed.

(** **** Time reconciliation *)

Lemma syncAudio_lookup r a st k :
  audioRefs (fst (syncAudio r a st)) !! k
  = if String.eqb (timeline.id a) k
    then syncedAudio r a <$> audioRefs st !! k
    else audioRefs st !! k.
Proof.
  unfold syncAudio.
  destruct (String.eqb_spec (timeline.id a) k) as [<-|Hne].
  - destruct (audioRefs st !! timeline.id a) as [p|] eqn:Hp; cbn [fst].
    + simpl. unfold syncedAudio. destruct (gt _ _); cbn [fst audioRefs].
      * by rewrite lookup_insert_eq.
      * by rewrite Hp.
    + by rewrite Hp.
  - destruct (audioRefs st !! timeline.id a) as [p|] eqn:Hp; cbn [fst]; [|done].
    destruct (gt _ _); cbn [fst audioRefs]; [|done].
    by rewrite lookup_insert_ne.
Qed.

Lemma syncAudio_actions r a st act :
  In act (snd (syncAudio r a st)) <->
  exists p, audioRefs st !! timeline.id a = Some p
            /\ gt (Math_abs (media.currentTime p - audioLocalTime r a)) 0.2 = true
            /\ act = audio_seek (timeline.id a) (audioLocalTime r a).
Proof.
  unfold syncAudio.
  destruct (audioRefs st !! timeline.id a) as [p|]; cbn [snd].
  - destruct (gt _ _) eqn:Hgt; cbn [snd In].
    + split.
      * intros [<-|[]]. eauto.
      * intros (p' & [= <-] & _ & ->). auto.
    + split; [tauto|]. intros (p' & [= <-] & Hp & _). congruence.
  - cbn [In]. split; [tauto|]. intros (p' & Hp & _). discriminate.
Qed.

Lemma sync_forEach_lookup r l st k :
  NoDup (List.map timeline.id l) ->
  audioRefs (fst (forEach (syncAudio r) l st)) !! k
  = match findId k l with
    | Some a => syncedAudio r a <$> audioRefs st !! k
    | None => audioRefs st !! k
    end.
Proof.
  revert st. induction l as [|b l IH]; intros st Hnd; [done|].
  apply NoDup_cons in Hnd as [Hb Hnd].
  rewrite forEach_cons_fst, IH, syncAudio_lookup by done.
  unfold findId. simpl.
  destruct (String.eqb_spec (timeline.id b) k) as [<-|Hne]; [|done].
  assert (findId (timeline.id b) l = None) as Hf.
  { apply findId_None. by rewrite <- list_elem_of_In. }
  unfold findId in Hf. by rewrite Hf.
Qed.

Lemma sync_forEach_actions r l st k t :
  NoDup (List.map timeline.id l) ->
  In (audio_seek k t) (snd (forEach (syncAudio r) l st)) <->
  exists a p, findId k l = Some a /\ audioRefs st !! k = Some p
              /\ gt (Math_abs (media.currentTime p - audioLocalTime r a)) 0.2 = true
              /\ t = audioLocalTime r a.
Proof.
  revert st. induction l as [|b l IH]; intros st Hnd.
  - simpl. split; [tauto|]. intros (a & p & Hf & _). discriminate.
  - apply NoDup_cons in Hnd as [Hb Hnd].
    rewrite forEach_cons_snd, in_app_iff, IH, syncAudio_actions by done.
    unfold findId at 2. simpl.
    destruct (String.eqb_spec (timeline.id b) k) as [<-|Hne].
    + assert (findId (timeline.id b) l = None) as Hf.
      { apply findId_None. by rewrite <- list_elem_of_In. }
      split.
      * intros [(p & Hp & Hgt & [= ->])|(a & p & Ha & _)]; [|congruence].
        eauto 10.
      * intros (a & p & [= <-] & Hp & Hgt & ->). left. eauto.
    + split.
      * intros [(p & _ & _ & [= Heq _])|(a & p & Ha & Hp & Hgt & ->)]; [done|].
        rewrite syncAudio_lookup in Hp. apply String.eqb_neq in Hne.
        rewrite Hne in Hp. eauto 10.
      * intros (a & p & Ha & Hp & Hgt & ->). right. exists a, p.
        rewrite syncAudio_lookup. apply String.eqb_neq in Hne.
        rewrite Hne. auto.
Qed.

Lemma syncAudioTime_fst r st :
  audioRefs (fst (syncAudioTime r st))
  = (if gt (Math_abs (currentTime r - lastTimeRef st)) 0.1
     then audioRefs (fst (forEach (syncAudio r) (activeAudioElementsRef st) st))
     else audioRefs st)
  /\ lastTimeRef (fst (syncAudioTime r st)) = currentTime r.
Proof.
  unfold syncAudioTime. destruct (gt _ _); [|done].
  by destruct (forEach _ _ _).
Qed.

Lemma syncAudioTime_snd r st :
  snd (syncAudioTime r st)
  = if gt (Math_abs (currentTime r - lastTimeRef st)) 0.1
    then snd (forEach (syncAudio r) (activeAudioElementsRef st) st)
    else [].
Proof.
  unfold syncAudioTime. destruct (gt _ _); [|done].
  by destruct (forEach _ _ _).
Qed.

End AudioFacts.

Section AudioCreationFacts.
Import Preview.
Variable canPlay : string -> bool.
Implicit Types (st : AudioState) (r : Render) (a : TimelineElement).

(** **** Creation *)

Lemma createAudio_None r a st :
  audioRefs st !! timeline.id a = None ->
  createAudio canPlay r a st
  = (mkAudio (<[timeline.id a := createdAudio canPlay r a]> (audioRefs st))
             (activeAudioElementsRef st) (lastTimeRef st),
     createdActions canPlay r a).
Proof.
  intros H. unfold createAudio, createdAudio, createdActions. rewrite H.
  destruct (isPlaying r); [|reflexivity].
  destruct (playAudio canPlay (timeline.id a) (newAudio r a)); reflexivity.
Qed.

Lemma createAudio_Some r a st p :
  audioRefs st !! timeline.id a = Some p -> createAudio canPlay r a st = (st, []).
Proof. intros H. unfold createAudio. by rewrite H. Qed.

Lemma createAudio_lookup r a st k :
  audioRefs (fst (createAudio canPlay r a st)) !! k
  = match audioRefs st !! k with
    | Some p => Some p
    | None => if String.eqb (timeline.id a) k
              then Some (createdAudio canPlay r a) else None
    end.
Proof.
  destruct (audioRefs st !! timeline.id a) as [p|] eqn:Ha.
  - rewrite (createAudio_Some _ _ _ _ Ha). simpl.
    destruct (String.eqb_spec (timeline.id a) k) as [<-|Hne].
    + by rewrite Ha.
    + by destruct (audioRefs st !! k).
  - rewrite (createAudio_None _ _ _ Ha). simpl.
    destruct (String.eqb_spec (timeline.id a) k) as [<-|Hne].
    + by rewrite lookup_insert_eq, Ha.
    + rewrite lookup_insert_ne by done. by destruct (audioRefs st !! k).
Qed.

(** After the creation loop a key holds the player it held before, or
    else the player created for the first active clip of that id. *)
Lemma create_forEach_lookup r l st k :
  audioRefs (fst (forEach (createAudio canPlay r) l st)) !! k
  = match audioRefs st !! k with
    | Some p => Some p
    | None => createdAudio canPlay r <$> findId k l
    end.
Proof.
  revert st. induction l as [|b l IH]; intros st.
  - simpl. by destruct (audioRefs st !! k).
  - rewrite forEach_cons_fst, IH, createAudio_lookup.
    unfold findId. simpl.
    destruct (audioRefs st !! k); [done|].
    by destruct (String.eqb (timeline.id b) k).
Qed.

Lemma create_forEach_actions r l st a :
  findId (timeline.id a) l = Some a ->
  audioRefs st !! timeline.id a = None ->
  exists before after,
    snd (forEach (createAudio canPlay r) l st)
    = before ++ createdActions canPlay r a ++ after.
Proof.
  revert st. induction l as [|b l IH]; intros st Hf Hst; [discriminate|].
  rewrite forEach_cons_snd. unfold findId in Hf. simpl in Hf.
  destruct (String.eqb_spec (timeline.id b) (timeline.id a)) as [Heq|Hne].
  - injection Hf as ->. rewrite (createAudio_None _ _ _ Hst). cbn [fst snd].
    eexists [], _. reflexivity.
  - destruct (IH (fst (createAudio canPlay r b st)) Hf) as (l1 & l2 & H).
    { rewrite createAudio_lookup, Hst.
      apply String.eqb_neq in Hne. by rewrite Hne. }
    exists (snd (createAudio canPlay r b st) ++ l1), l2.
    rewrite H. by rewrite <- app_assoc.
Qed.

Lemma reconcileAudio_fst r st :
  let active := Selector.activeAudioElements (elements r) (currentTime r) in
  let st1 := fst (forEach (createAudio canPlay r) active
                    (mkAudio (audioRefs st) active (lastTimeRef st))) in
  fst (reconcileAudio canPlay r st)
  = fst (forEach (removeAudio active) (keys (audioRefs st1)) st1).
Proof. unfold reconcileAudio. by rewrite andThen_fst. Qed.

Lemma reconcileAudio_snd r st :
  let active := Selector.activeAudioElements (elements r) (currentTime r) in
  let st0 := mkAudio (audioRefs st) active (lastTimeRef st) in
  let st1 := fst (forEach (createAudio canPlay r) active st0) in
  snd (reconcileAudio canPlay r st)
  = snd (forEach (createAudio canPlay r) active st0)
    ++ snd (forEach (removeAudio active) (keys (audioRefs st1)) st1).
Proof. unfold reconcileAudio. by rewrite andThen_snd. Qed.

(** The pool after a reconciliation pass, key by key. *)
Lemma reconcileAudio_lookup r st k :
  let active := Selector.activeAudioElements (elements r) (currentTime r) in
  audioRefs (fst (reconcileAudio canPlay r st)) !! k
  = if isActiveId active k
    then match audioRefs st !! k with
         | Some p => Some p
         | None => createdAudio canPlay r <$> findId k active
         end
    else None.
Proof.
  intros active. rewrite reconcileAudio_fst. fold active.
  set (st1 := fst (forEach (createAudio canPlay r) active
                     (mkAudio (audioRefs st) active (lastTimeRef st)))).
  assert (Hst1 : audioRefs st1 !! k
                 = match audioRefs st !! k with
                   | Some p => Some p
                   | None => createdAudio canPlay r <$> findId k active
                   end).
  { subst st1. by rewrite create_forEach_lookup. }
  destruct (remove_forEach_lookup active (keys (audioRefs st1)) st1 k)
    as [Hgone Hkept].
  destruct (isActiveId active k) eqn:Hk.
  - rewrite Hkept by (by left). exact Hst1.
  - destruct (audioRefs st1 !! k) as [p|] eqn:Hp.
    + apply Hgone; [done|]. apply keys_spec. rewrite Hp. eauto.
    + rewrite Hkept; [done|]. right. intros Hin.
      apply keys_spec in Hin as [p' Hp']. congruence.
Qed.

(** The fields of the player that the creation loop stores. *)
Lemma createdAudio_fields r a :
  media.src (createdAudio canPlay r a) = timeline.src (timeline.content a)
  /\ media.currentTime (createdAudio canPlay r a)
     = Math_max 0 (currentTime r - timeline.start a)
  /\ media.volume (createdAudio canPlay r a)
     = match timeline.volume (timeline.content a) with
       | Some v => v
       | None => volume r / 100
       end
  /\ media.muted (createdAudio canPlay r a) = false
  /\ media.paused (createdAudio canPlay r a)
     = negb (isPlaying r && canPlay (timeline.src (timeline.content a))).
Proof.
  unfold createdAudio, playAudio, newAudio, audioLocalTime. cbn [media.src].
  destruct (isPlaying r); [|done].
  by destruct (canPlay _).
Qed.

End AudioCreationFacts.

(** C8: after every reconciliation pass the pool holds players of active
    clips only, and every player that was in the pool for an id that is not
    active any more has been paused and then removed; on unmount every
    player of the pool is paused and the pool is emptied, whatever the
    state. *)
Theorem C8_teardown_and_unmount (canPlay : string -> bool)
    (r : Preview.Render) (st : Preview.AudioState) :
  let active :=
    Selector.activeAudioElements (Preview.elements r) (Preview.currentTime r) in
  let st' := fst (Preview.reconcileAudio canPlay r st) in
  let acts := snd (Preview.reconcileAudio canPlay r st) in
  (forall id, is_Some (Preview.audioRefs st' !! id) ->
     exists a, In a active /\ timeline.id a = id)
  /\ (forall id, is_Some (Preview.audioRefs st !! id) ->
        (forall a, In a active -> timeline.id a <> id) ->
        Preview.audioRefs st' !! id = None
        /\ exists before after,
             acts = before ++ [Preview.audio_pause id; Preview.audio_delete id]
                           ++ after)
  /\ Preview.audioRefs (fst (Preview.unmount st)) = ∅
  /\ (forall id, is_Some (Preview.audioRefs st !! id) ->
        In (Preview.audio_pause id) (snd (Preview.unmount st))).
Proof.
  intros active st' acts. repeat split.
  - intros id Hid. subst st'.
    rewrite reconcileAudio_lookup in Hid. fold active in Hid.
    destruct (Preview.isActiveId active id) eqn:Hk.
    + by apply isActiveId_spec.
    + by destruct Hid.
  - subst st'. rewrite reconcileAudio_lookup. fold active.
    destruct (Preview.isActiveId active id) eqn:Hk; [|done].
    apply isActiveId_spec in Hk as (a & Ha & Heq). by destruct (H0 a Ha).
  - subst acts. rewrite reconcileAudio_snd. fold active.
    rewrite remove_forEach_actions.
    edestruct (stale_actions active) as (l1 & l2 & Hl); cycle 2.
    + rewrite Hl. eexists (_ ++ l1), l2. by rewrite <- app_assoc.
    + apply keys_spec. rewrite create_forEach_lookup. cbn [Preview.audioRefs].
      destruct H as [p ->]. eauto.
    + apply not_true_iff_false. intros Hk.
      apply isActiveId_spec in Hk as (a & Ha & Heq). by destruct (H0 a Ha).
  - intros id Hid. unfold Preview.unmount. cbn [snd].
    apply in_map. by apply keys_spec.
Qed.

(** C3: on a clock tick the synchronisation effect seeks the player of an
    active session exactly when both |currentTime - lastTick| > 0.1 and the
    player's position differs from localTime = max(0, currentTime -
    element.start) by more than 0.2, and then it seeks to localTime;
    otherwise the player is left as it is.  The tick is recorded in either
    case. *)
Theorem C3_audio_seek_gated (r : Preview.Render) (st : Preview.AudioState)
    (a : TimelineElement) (p : Preview.media.t) :
  NoDup (List.map timeline.id (Preview.activeAudioElementsRef st)) ->
  In a (Preview.activeAudioElementsRef st) ->
  Preview.audioRefs st !! timeline.id a = Some p ->
  let localTime := Math_max 0 (Preview.currentTime r - timeline.start a) in
  let tick := 0.1 < Qabs (Preview.currentTime r - Preview.lastTimeRef st) in
  let drift := 0.2 < Qabs (Preview.media.currentTime p - localTime) in
  let st' := fst (Preview.syncAudioTime r st) in
  let acts := snd (Preview.syncAudioTime r st) in
  (forall t, In (Preview.audio_seek (timeline.id a) t) acts
             <-> tick /\ drift /\ t = localTime)
  /\ (tick /\ drift ->
      Preview.audioRefs st' !! timeline.id a
      = Some (Preview.media.set_currentTime localTime p))
  /\ (~ (tick /\ drift) -> Preview.audioRefs st' !! timeline.id a = Some p)
  /\ Preview.lastTimeRef st' = Preview.currentTime r.
Proof.
  intros Hnd Hin Hp localTime tick drift st' acts.
  pose proof (findId_NoDup a _ Hnd Hin) as Hf.
  destruct (syncAudioTime_fst r st) as [Hpool Hlast].
  assert (Htick : gt (Math_abs (Preview.currentTime r - Preview.lastTimeRef st)) 0.1
                  = true <-> tick) by apply gt_true.
  assert (Hdrift : gt (Math_abs (Preview.media.currentTime p
                                 - Preview.audioLocalTime r a)) 0.2
                   = true <-> drift) by apply gt_true.
  assert (Hlookup :
    Preview.audioRefs (fst (forEach (Preview.syncAudio r)
                              (Preview.activeAudioElementsRef st) st))
      !! timeline.id a = Some (Preview.syncedAudio r a p)).
  { rewrite sync_forEach_lookup, Hf, Hp by done. done. }
  repeat split.
  - subst acts. rewrite syncAudioTime_snd in H.
    destruct (gt _ 0.1); [|destruct H]. by apply Htick.
  - subst acts. rewrite syncAudioTime_snd in H.
    destruct (gt _ 0.1); [|destruct H].
    apply sync_forEach_actions in H as (a' & p' & Ha' & Hp' & Hgt & _); [|done].
    apply Hdrift. congruence.
  - subst acts. rewrite syncAudioTime_snd in H.
    destruct (gt _ 0.1); [|destruct H].
    apply sync_forEach_actions in H as (a' & p' & Ha' & Hp' & Hgt & ->); [|done].
    unfold localTime, Preview.audioLocalTime. congruence.
  - intros (Ht & Hd & ->). subst acts. rewrite syncAudioTime_snd.
    apply Htick in Ht. rewrite Ht.
    apply sync_forEach_actions; [done|]. exists a, p.
    repeat split; auto. by apply Hdrift.
  - intros [Ht Hd]. subst st'. rewrite Hpool.
    apply Htick in Ht. rewrite Ht, Hlookup.
    unfold Preview.syncedAudio. apply Hdrift in Hd. by rewrite Hd.
  - intros Hn. subst st'. rewrite Hpool.
    destruct (gt _ 0.1) eqn:Ht; [|done].
    rewrite Hlookup. unfold Preview.syncedAudio.
    destruct (gt _ 0.2) eqn:Hd; [|done].
    exfalso. apply Hn. split; [by apply Htick | by apply Hdrift].
  - exact Hlast.
Qed.

Lemma C3_audio_seek_gated_witness :
  let a1 := timeline.mkElement "a1" timeline.audio 0 5
              (timeline.mkContent "a1.mp3" None None None) in
  let a2 := timeline.mkElement "a2" timeline.audio 3 8
              (timeline.mkContent "a2.mp3" None None None) in
  let p1 := Preview.media.mk "a1.mp3" 1 1 false false in
  let p2 := Preview.media.mk "a2.mp3" 1 1 false false in
  let st := Preview.mkAudio (<["a1" := p1]> (<["a2" := p2]> ∅)) [a1; a2] 1 in
  let r := Preview.mkRender true 4 10 [a1; a2] 100 false in
  NoDup (List.map timeline.id (Preview.activeAudioElementsRef st))
  /\ In a1 (Preview.activeAudioElementsRef st)
  /\ Preview.audioRefs st !! timeline.id a1 = Some p1
  /\ In (Preview.audio_seek "a1" 4) (snd (Preview.syncAudioTime r st))
  /\ Preview.audioRefs (fst (Preview.syncAudioTime r st)) !! "a1"
     = Some (Preview.media.mk "a1.mp3" 4 1 false false).
Proof.
  intros a1 a2 p1 p2 st r.
  assert (H1 : NoDup (List.map timeline.id (Preview.activeAudioElementsRef st))).
  { compute_done. }
  assert (H2 : In a1 (Preview.activeAudioElementsRef st)) by (simpl; auto).
  assert (H3 : Preview.audioRefs st !! timeline.id a1 = Some p1) by reflexivity.
  repeat (split; [assumption|]).
  destruct (C3_audio_seek_gated r st a1 p1 H1 H2 H3) as (Hseek & Hpool & _).
  split.
  - apply (Hseek 4). repeat split; reflexivity.
  - apply Hpool. split; reflexivity.
Defined.

Lemma selector_active_In elements t a :
  In a elements -> timeline.type a = timeline.audio -> Selector.contains a t ->
  In a (Selector.activeAudioElements elements t).
Proof.
  intros Hin Hty Hc. apply filter_In. split; [done|].
  by apply isActiveAudio_spec.
Qed.

(** C2 (what the code does): for an audio element that is active while no
    session exists for its id, the reconciliation pass leaves in the pool a
    player bound to content.src, positioned at max(0, currentTime -
    element.start), whose volume is content.volume when defined and
    engineVolume/100 otherwise, and which is started when the transport is
    playing; a rejected start is reported and the session stays in the pool.
    The mute state of the new player is always false: neither the engine's
    mute nor content.muted is consulted. *)
Theorem C2_audio_creation (canPlay : string -> bool) (r : Preview.Render)
    (st : Preview.AudioState) (a : TimelineElement) :
  NoDup (List.map timeline.id (Preview.elements r)) ->
  In a (Preview.elements r) ->
  timeline.type a = timeline.audio ->
  Selector.contains a (Preview.currentTime r) ->
  Preview.audioRefs st !! timeline.id a = None ->
  let st' := fst (Preview.reconcileAudio canPlay r st) in
  let acts := snd (Preview.reconcileAudio canPlay r st) in
  let src := timeline.src (timeline.content a) in
  let localTime := Math_max 0 (Preview.currentTime r - timeline.start a) in
  exists player,
    Preview.audioRefs st' !! timeline.id a = Some player
    /\ Preview.media.src player = src
    /\ Preview.media.currentTime player = localTime
    /\ Preview.media.volume player
       = match timeline.volume (timeline.content a) with
         | Some v => v
         | None => Preview.volume r / 100
         end
    /\ Preview.media.muted player = false
    /\ Preview.media.paused player = negb (Preview.isPlaying r && canPlay src)
    /\ In (Preview.audio_new (timeline.id a) src) acts
    /\ In (Preview.audio_seek (timeline.id a) localTime) acts
    /\ (Preview.isPlaying r = true -> In (Preview.audio_play (timeline.id a)) acts)
    /\ (Preview.isPlaying r = true -> canPlay src = false ->
        In (Preview.audio_play_error (timeline.id a)) acts).
Proof.
  intros Hnd Hin Hty Hc Hnone st' acts src localTime.
  set (active := Selector.activeAudioElements (Preview.elements r)
                   (Preview.currentTime r)).
  assert (Hact : In a active) by by apply selector_active_In.
  assert (Hf : Preview.findId (timeline.id a) active = Some a).
  { apply findId_NoDup; [|done]. by apply NoDup_filter_ids. }
  exists (Preview.createdAudio canPlay r a).
  destruct (createdAudio_fields canPlay r a) as (F1 & F2 & F3 & F4 & F5).
  split.
  { subst st'. rewrite reconcileAudio_lookup. fold active.
    assert (Preview.isActiveId active (timeline.id a) = true) as ->.
    { apply isActiveId_spec. eauto. }
    by rewrite Hnone, Hf. }
  do 5 (split; [assumption|]).
  destruct (create_forEach_actions canPlay r active
              (Preview.mkAudio (Preview.audioRefs st) active (Preview.lastTimeRef st))
              a Hf Hnone) as (l1 & l2 & Hl).
  assert (Hsub : forall act, In act (Preview.createdActions canPlay r a) ->
                             In act acts).
  { intros act Hact'. subst acts. rewrite reconcileAudio_snd. fold active.
    rewrite Hl. rewrite !in_app_iff. auto. }
  unfold Preview.createdActions, Preview.playAudio, Preview.newAudio in Hsub.
  cbn [Preview.media.src] in Hsub. fold src in Hsub.
  repeat split.
  - apply Hsub. simpl. auto.
  - apply Hsub. simpl. auto.
  - intros Hplay. apply Hsub. rewrite Hplay.
    destruct (canPlay src); simpl; auto.
  - intros Hplay Hfail. apply Hsub. rewrite Hplay, Hfail. simpl. auto.
Qed.

Lemma C2_audio_creation_witness :
  let a1 := timeline.mkElement "a1" timeline.audio 5 10
              (timeline.mkContent "a1.mp3" None None (Some true)) in
  let st := Preview.mkAudio ∅ [] (49 # 10) in
  let r := Preview.mkRender true 5 20 [a1] 100 true in
  let canPlay := fun _ : string => true in
  NoDup (List.map timeline.id (Preview.elements r))
  /\ In a1 (Preview.elements r)
  /\ timeline.type a1 = timeline.audio
  /\ Selector.contains a1 (Preview.currentTime r)
  /\ Preview.audioRefs st !! timeline.id a1 = None
  /\ Preview.finalMuted r a1 = true
  /\ exists player,
       Preview.audioRefs (fst (Preview.reconcileAudio canPlay r st)) !! "a1"
       = Some player
       /\ Preview.media.muted player = false
       /\ Preview.media.paused player = false.
Proof.
  intros a1 st r canPlay.
  assert (H1 : NoDup (List.map timeline.id (Preview.elements r))).
  { compute_done. }
  assert (H2 : In a1 (Preview.elements r)) by (simpl; auto).
  assert (H3 : timeline.type a1 = timeline.audio) by reflexivity.
  assert (H4 : Selector.contains a1 (Preview.currentTime r)).
  { split; discriminate. }
  assert (H5 : Preview.audioRefs st !! timeline.id a1 = None) by reflexivity.
  repeat (split; [assumption|]). split; [reflexivity|].
  destruct (C2_audio_creation canPlay r st a1 H1 H2 H3 H4 H5)
    as (player & Hp & _ & _ & _ & Hm & Hpaused & _).
  exists player. auto.
Defined.

(** The sibling path: the transport effect, which runs when [isPlaying],
    [isMuted] or [volume] changed, sets the mute state of a session to
    [isMuted || content.muted] and its volume to the product of the clip's
    and the engine's volume. *)
Lemma controlAudio_sets_mute canPlay r a st p :
  Preview.audioRefs st !! timeline.id a = Some p ->
  exists p',
    Preview.audioRefs (fst (Preview.controlAudio canPlay r a st)) !! timeline.id a
    = Some p'
    /\ Preview.media.muted p' = Preview.finalMuted r a
    /\ Preview.media.volume p' = Preview.finalVolume r a.
Proof.
  intros Hp. unfold Preview.controlAudio, Preview.playAudio. rewrite Hp.
  destruct (Preview.isPlaying r); [destruct (canPlay _)|];
    cbn [fst Preview.audioRefs]; rewrite lookup_insert_eq; eauto.
Qed.

(** *** The video playback binder *)

Section VideoFacts.
Import Preview.
Implicit Types (st : VideoState) (r : Render) (v : media.t).

(** Beyond the tolerance the effect seeks the player once, to the clock
    time, raises the blocker and arms one 50ms timer. *)
Lemma timeSync_seek r st v :
  videoRef st = Some v ->
  0.2 < Qabs (media.currentTime v - currentTime r) ->
  timeSync r st
  = (mkVideo (Some (media.set_currentTime (currentTime r) v)) true
             (videoEnded st) (isBuffering st)
             (timers st ++ [(now st + 50)%nat]) (now st),
     [video_seek (currentTime r)]).
Proof.
  intros Hv Hd. unfold timeSync. rewrite Hv.
  apply gt_true in Hd. unfold Math_abs. by rewrite Hd.
Qed.

(** Within the tolerance the effect does nothing. *)
Lemma timeSync_within r st v :
  videoRef st = Some v ->
  Qabs (media.currentTime v - currentTime r) <= 0.2 ->
  timeSync r st = (st, []).
Proof.
  intros Hv Hd. unfold timeSync. rewrite Hv.
  apply gt_false in Hd. unfold Math_abs. by rewrite Hd.
Qed.

Lemma filter_due_nil now' (l : list nat) :
  Forall (fun t => (now' < t)%nat) l ->
  List.filter (fun t => Nat.leb t now') l = [].
Proof.
  induction 1 as [|t l Ht _ IH]; [done|]. simpl.
  destruct (Nat.leb_spec t now'); [lia | done].
Qed.

(** While no timer is due the blocker keeps its value. *)
Lemma elapse_blocker_kept ms st :
  Forall (fun t => (now st + ms < t)%nat) (timers st) ->
  timeUpdateBlocker (elapse ms st) = timeUpdateBlocker st.
Proof. intros H. unfold elapse. cbn. by rewrite filter_due_nil. Qed.

(** A correction made while no reset timer is pending silences the player's
    time reports for the next 50ms, and the reports are forwarded again once
    the 50ms have passed. *)
Lemma timeSync_suppresses r st v ms :
  videoRef st = Some v ->
  0.2 < Qabs (media.currentTime v - currentTime r) ->
  timers st = [] ->
  ((ms < 50)%nat ->
     snd (handleTimeUpdate (elapse ms (fst (timeSync r st)))) = [])
  /\ ((50 <= ms)%nat ->
        snd (handleTimeUpdate (elapse ms (fst (timeSync r st))))
        = [onTimeUpdate (currentTime r)]).
Proof.
  intros Hv Hd Ht. rewrite (timeSync_seek r st v Hv Hd). cbn [fst]. rewrite Ht.
  unfold elapse, handleTimeUpdate. cbn.
  split; intros Hms.
  - destruct (Nat.leb_spec (now st + 50) (now st + ms)); [lia | done].
  - destruct (Nat.leb_spec (now st + 50) (now st + ms)); [done | lia].
Qed.

End VideoFacts.

(** C4 (what the code does): a correction made while the reset timer of an
    earlier correction is still pending is not silenced for 50ms.  The player
    is at 0 and the clock jumps to 5: the effect seeks, raises the blocker and
    arms a timer due at 50.  At 40 the clock jumps to 9: the effect seeks
    again and arms a second timer, due at 90.  At 50 the first timer clears
    the blocker, and the time report of the player, 10ms after the second
    correction, is forwarded to the clock. *)
Theorem C4_overlapping_corrections :
  let st0 := Preview.mkVideo (Some (Preview.media.mk "clip.mp4" 0 1 false false))
               false false false [] 0 in
  let r1 := Preview.mkRender true 5 20 [] 100 false in
  let r2 := Preview.mkRender true 9 20 [] 100 false in
  let st1 := fst (Preview.timeSync r1 st0) in
  let st2 := Preview.elapse 40 st1 in
  let st3 := fst (Preview.timeSync r2 st2) in
  let st4 := Preview.elapse 10 st3 in
  snd (Preview.timeSync r1 st0) = [Preview.video_seek 5]
  /\ snd (Preview.handleTimeUpdate st2) = []
  /\ snd (Preview.timeSync r2 st2) = [Preview.video_seek 9]
  /\ Preview.timeUpdateBlocker st3 = true
  /\ Preview.timers st3 = [50; 90]%nat
  /\ Preview.now st3 = 40%nat
  /\ Preview.now st4 = 50%nat
  /\ Preview.timeUpdateBlocker st4 = false
  /\ snd (Preview.handleTimeUpdate st4) = [Preview.onTimeUpdate 9].
Proof. repeat split. Qed.

(** C7 fails as stated for the effect that reacts to [isPlaying] becoming
    true: with the video ended, the clock scrubbed back to 3 of 10 seconds and
    play requested, the effect only clears the Ended flag and starts the
    player; the clock is not forced to 0 and the player is not moved. *)
Lemma C7_counterexample :
  let canPlay := fun _ : string => true in
  let r := Preview.mkRender true 3 10 [] 100 false in
  let st := Preview.mkVideo (Some (Preview.media.mk "clip.mp4" 3 1 false true))
              false true false [] 0 in
  Preview.playPause canPlay r st
  = (Preview.mkVideo (Some (Preview.media.mk "clip.mp4" 3 1 false false))
                     false false false [] 0,
     [Preview.video_play])
  /\ ~ Preview.restartsOnPlay canPlay r st.
Proof.
  split; [reflexivity|].
  intros H. specialize (H eq_refl (or_introl eq_refl)).
  simpl in H. destruct H as [H|[]]. discriminate.
Qed.

(** C7, amended: the Play button ([handlePlay]), pressed while the video had
    ended or currentTime >= duration - 0.1, clears the Ended flag and calls
    onRestart before onPlay, and otherwise calls onPlay alone.  The effect
    that reacts to isPlaying being true on a bound player clears the Ended
    flag and starts the player; it first calls onTimeUpdate(0) and seeks the
    player to 0 exactly when the video had ended and currentTime >= duration
    - 0.1 both hold, and otherwise issues no time update and no seek. *)
Theorem C7_implicit_restart (canPlay : string -> bool) (r : Preview.Render)
    (st : Preview.VideoState) (v : Preview.media.t) :
  Preview.videoRef st = Some v ->
  Preview.isPlaying r = true ->
  let nearEnd := Preview.duration r - 0.1 <= Preview.currentTime r in
  let st' := fst (Preview.playPause canPlay r st) in
  let acts := snd (Preview.playPause canPlay r st) in
  (Preview.videoEnded st = true \/ nearEnd ->
     Preview.handlePlay r st
     = (Preview.mkVideo (Preview.videoRef st) (Preview.timeUpdateBlocker st)
                        false (Preview.isBuffering st)
                        (Preview.timers st) (Preview.now st),
        [Preview.onRestart; Preview.onPlay]))
  /\ (~ (Preview.videoEnded st = true \/ nearEnd) ->
        Preview.handlePlay r st = (st, [Preview.onPlay]))
  /\ Preview.videoEnded st' = false
  /\ In Preview.video_play acts
  /\ (Preview.videoEnded st = true /\ nearEnd ->
        (exists rest, acts = [Preview.onTimeUpdate 0; Preview.video_seek 0] ++ rest)
        /\ Preview.media.currentTime <$> Preview.videoRef st' = Some 0)
  /\ (~ (Preview.videoEnded st = true /\ nearEnd) ->
        (forall t, ~ In (Preview.onTimeUpdate t) acts)
        /\ (forall t, ~ In (Preview.video_seek t) acts)
        /\ Preview.media.currentTime <$> Preview.videoRef st'
           = Some (Preview.media.currentTime v)).
Proof.
  intros Hv Hplay nearEnd st' acts.
  assert (Hge : ge (Preview.currentTime r) (Preview.duration r - 0.1) = true
                <-> nearEnd) by apply Qle_bool_iff.
  split; [|split].
  { intros Hor. unfold Preview.handlePlay, andThen.
    assert (Preview.videoEnded st
            || ge (Preview.currentTime r) (Preview.duration r - 0.1) = true) as ->.
    { destruct Hor as [->|H]; [done|].
      apply Hge in H. rewrite H. apply orb_true_r. }
    reflexivity. }
  { intros Hn. unfold Preview.handlePlay, andThen.
    assert (Preview.videoEnded st
            || ge (Preview.currentTime r) (Preview.duration r - 0.1) = false) as ->.
    { apply orb_false_iff.
      split; apply not_true_iff_false; intros H; apply Hn;
        [left | right; apply Hge]; done. }
    reflexivity. }
  subst st' acts. unfold Preview.playPause. rewrite Hv, Hplay.
  destruct (Preview.videoEnded st
            && ge (Preview.currentTime r) (Preview.duration r - 0.1))
    eqn:Hrestart.
  - apply andb_true_iff in Hrestart as [He Hn].
    destruct (canPlay _); cbn [fst snd Preview.videoEnded Preview.videoRef];
      (split; [reflexivity|]); (split; [simpl; tauto|]);
      (split; [intros _; split; [eexists; reflexivity | reflexivity]|]);
      intros Hnot; exfalso; apply Hnot; split; [done | by apply Hge | done | by apply Hge].
  - assert (Hnot : ~ (Preview.videoEnded st = true /\ nearEnd)).
    { intros [He Hn]. apply Hge in Hn. rewrite He, Hn in Hrestart. discriminate. }
    destruct (canPlay _); cbn [fst snd Preview.videoEnded Preview.videoRef];
      (split; [reflexivity|]); (split; [simpl; tauto|]);
      (split; [intros H; by destruct (Hnot H)|]);
      intros _; (split; [|split]); try reflexivity;
      intros t Hin; simpl in Hin; intuition discriminate.
Qed.

Lemma C7_implicit_restart_witness :
  let canPlay := fun _ : string => true in
  let r := Preview.mkRender true 10 10 [] 100 false in
  let v := Preview.media.mk "clip.mp4" 10 1 false true in
  let st := Preview.mkVideo (Some v) false true false [] 0 in
  Preview.videoRef st = Some v
  /\ Preview.isPlaying r = true
  /\ snd (Preview.handlePlay r st) = [Preview.onRestart; Preview.onPlay]
  /\ Preview.media.currentTime
       <$> Preview.videoRef (fst (Preview.playPause canPlay r st)) = Some 0.
Proof.
  intros canPlay r v st.
  assert (H1 : Preview.videoRef st = Some v) by reflexivity.
  assert (H2 : Preview.isPlaying r = true) by reflexivity.
  split; [exact H1|]. split; [exact H2|].
  destruct (C7_implicit_restart canPlay r st v H1 H2)
    as (Hplay & _ & _ & _ & Hrestart & _).
  split.
  - rewrite Hplay; [reflexivity|]. left. reflexivity.
  - apply Hrestart. split; [reflexivity | discriminate].
Defined.

(** In the restart branch of the play effect the blocker is raised and
    cleared within the same run, so it is down when the run ends: the next
    time report of the player is forwarded. *)
Lemma playPause_restart_blocker (canPlay : string -> bool) (r : Preview.Render)
    (st : Preview.VideoState) (v : Preview.media.t) :
  Preview.videoRef st = Some v ->
  Preview.isPlaying r = true ->
  Preview.videoEnded st = true ->
  Preview.duration r - 0.1 <= Preview.currentTime r ->
  Preview.timeUpdateBlocker (fst (Preview.playPause canPlay r st)) = false
  /\ snd (Preview.handleTimeUpdate (fst (Preview.playPause canPlay r st)))
     = [Preview.onTimeUpdate 0].
Proof.
  intros Hv Hplay He Hn. apply Qle_bool_iff in Hn.
  unfold Preview.playPause, Preview.handleTimeUpdate, ge.
  rewrite Hv, Hplay, He, Hn. cbn.
  by destruct (canPlay _).
Qed.

(** *** Scenarios *)

(** Two audio clips with overlapping windows [0,5] and [3,8] at currentTime 4:
    the pass creates two sessions, at local times 4 and 1, and starts both. *)
Example two_overlapping_clips :
  let a1 := timeline.mkElement "a1" timeline.audio 0 5
              (timeline.mkContent "a1.mp3" None None None) in
  let a2 := timeline.mkElement "a2" timeline.audio 3 8
              (timeline.mkContent "a2.mp3" None (Some 0.5) None) in
  let r := Preview.mkRender true 4 10 [a1; a2] 80 false in
  let st' := fst (Preview.reconcileAudio (fun _ => true) r
                    (Preview.mkAudio ∅ [] 4)) in
  Preview.keys (Preview.audioRefs st') = ["a1"; "a2"]
  /\ Preview.audioRefs st' !! "a1"
     = Some (Preview.media.mk "a1.mp3" (4 - 0) (80 / 100) false false)
  /\ Preview.audioRefs st' !! "a2"
     = Some (Preview.media.mk "a2.mp3" (4 - 3) 0.5 false false)
  /\ Preview.activeAudioElementsRef st' = [a1; a2].
Proof. vm_compute. repeat split. Qed.

(** At currentTime 6 the first clip has left its window: its session is
    paused and removed, the session of the second clip is left alone. *)
Example first_clip_leaves :
  let a1 := timeline.mkElement "a1" timeline.audio 0 5
              (timeline.mkContent "a1.mp3" None None None) in
  let a2 := timeline.mkElement "a2" timeline.audio 3 8
              (timeline.mkContent "a2.mp3" None None None) in
  let p1 := Preview.media.mk "a1.mp3" 5 1 false false in
  let p2 := Preview.media.mk "a2.mp3" 2 1 false false in
  let r := Preview.mkRender true 6 10 [a1; a2] 100 false in
  Preview.reconcileAudio (fun _ => true) r
    (Preview.mkAudio (<["a1" := p1]> (<["a2" := p2]> ∅)) [a1; a2] 5)
  = (Preview.mkAudio (<["a2" := p2]> ∅) [a2] 5,
     [Preview.audio_pause "a1"; Preview.audio_delete "a1"]).
Proof. vm_compute. reflexivity. Qed.

(** The crop {x:0, y:0, width:50, height:50} with 16:9 locked and the width
    edited to 80: the height becomes 80 / (16/9) = 45. *)
Example width_80_under_16_9 :
  let st := CropTool.mkState 0 0 50 50 None (Some "16:9") in
  CropTool.cropWidth (CropTool.onWidthChange 80 st) = 80
  /\ CropTool.cropHeight (CropTool.onWidthChange 80 st) == 45.
Proof. split; reflexivity. Qed.

(** ** Further properties of the crop tool *)

Lemma truthy_Some sel : CropTool.truthy (Some sel) = true <-> sel <> EmptyString.
Proof.
  simpl. rewrite negb_true_iff. apply String.eqb_neq.
Qed.

Lemma selectedElement_None_of_missing p sel :
  CropTool.selectedElementId p = Some sel ->
  (forall el, In el (CropTool.elements p) -> timeline.id el <> sel) ->
  CropTool.selectedElement p = None.
Proof.
  intros Hsel Hmiss. unfold CropTool.selectedElement. rewrite Hsel.
  destruct (CropTool.truthy (Some sel)); [|done].
  destruct (List.find _ _) as [el|] eqn:Hf; [|done].
  apply find_some in Hf as [Hin Heq]. apply String.eqb_eq in Heq.
  by destruct (Hmiss el Hin).
Qed.

(** The rectangle the selection effect loads for an element. *)
Lemma resetOnSelection_croppable p st el :
  CropTool.selectedElement p = Some el ->
  CropTool.croppable el = true ->
  let c := match timeline.crop (timeline.content el) with
           | Some c => c
           | None => CropTool.defaultCrop
           end in
  CropTool.resetOnSelection p st
  = CropTool.mkState (timeline.x c) (timeline.y c) (timeline.width c)
                     (timeline.height c) (Some c) (Some "freeform").
Proof.
  intros Hel Hc. unfold CropTool.resetOnSelection. by rewrite Hel, Hc.
Qed.

(** X1: selecting a video or image loads its stored crop, or the full frame
    when it has none, and resets the ratio to freeform; without any edit,
    both the Done button and the debounce timer then commit exactly that
    rectangle under the selected id, and Done leaves the state as loaded. *)
Theorem load_then_commit_round_trip (p : CropTool.Props) (st : CropTool.State)
    (sel : string) (el : TimelineElement) :
  CropTool.selectedElementId p = Some sel ->
  CropTool.selectedElement p = Some el ->
  CropTool.croppable el = true ->
  let c := match timeline.crop (timeline.content el) with
           | Some c => c
           | None => timeline.mkCrop 0 0 100 100
           end in
  let loaded := CropTool.resetOnSelection p st in
  CropTool.currentCrop loaded = c
  /\ CropTool.previewCrop loaded = Some c
  /\ CropTool.selectedAspectRatio loaded = Some "freeform"
  /\ CropTool.handleApplyCrop p loaded
     = (loaded, [CropTool.onCropApply sel c;
                 CropTool.toast_success "Crop applied successfully"])
  /\ CropTool.debouncedCropApplication p loaded = [CropTool.onCropApply sel c].
Proof.
  intros Hsel Hel Hc c loaded.
  destruct (selectedElement_truthy p sel el Hsel Hel) as (Ht & _ & _).
  subst loaded. rewrite (resetOnSelection_croppable p st el Hel Hc).
  fold CropTool.defaultCrop in c.
  change (match timeline.crop (timeline.content el) with
          | Some c => c
          | None => CropTool.defaultCrop
          end) with c.
  unfold CropTool.handleApplyCrop, CropTool.debouncedCropApplication,
    CropTool.currentCrop.
  rewrite Hsel, Hel, Ht, Hc. cbn.
  destruct c as [cx cy cw ch]. cbn. repeat split.
Qed.

Lemma load_then_commit_round_trip_witness :
  let clip := timeline.mkElement "v1" timeline.video 0 10
                (timeline.mkContent "clip.mp4" None None None) in
  let p := CropTool.mkProps [clip] (Some "v1") in
  let st := CropTool.mkState 10 10 60 40 None (Some "16:9") in
  CropTool.selectedElementId p = Some "v1"
  /\ CropTool.selectedElement p = Some clip
  /\ CropTool.croppable clip = true
  /\ CropTool.debouncedCropApplication p (CropTool.resetOnSelection p st)
     = [CropTool.onCropApply "v1" (timeline.mkCrop 0 0 100 100)].
Proof.
  intros clip p st.
  assert (H1 : CropTool.selectedElementId p = Some "v1") by reflexivity.
  assert (H2 : CropTool.selectedElement p = Some clip) by reflexivity.
  assert (H3 : CropTool.croppable clip = true) by reflexivity.
  repeat (split; [assumption|]).
  exact (proj2 (proj2 (proj2 (proj2
           (load_then_commit_round_trip p st "v1" clip H1 H2 H3))))).
Defined.

(** X2: while nothing is selected (the id is null or the empty string) the
    component never calls onCropApply: Done does nothing at all, Cancel only
    resets the sliders, the debounce timer fires without effect, and the
    selection effect leaves the state alone. *)
Theorem no_selection_never_commits (p : CropTool.Props) (st : CropTool.State) :
  CropTool.truthy (CropTool.selectedElementId p) = false ->
  CropTool.handleApplyCrop p st = (st, [])
  /\ CropTool.handleResetCrop p st
     = (CropTool.mkState 0 0 100 100 (CropTool.previewCrop st) (Some "freeform"),
        [])
  /\ CropTool.debouncedCropApplication p st = []
  /\ CropTool.resetOnSelection p st = st.
Proof.
  intros Ht.
  unfold CropTool.handleApplyCrop, CropTool.handleResetCrop,
    CropTool.debouncedCropApplication, CropTool.resetOnSelection,
    CropTool.selectedElement.
  destruct (CropTool.selectedElementId p) as [sel|]; [|done].
  rewrite Ht. done.
Qed.

Lemma no_selection_never_commits_witness :
  let p := CropTool.mkProps [] (Some EmptyString) in
  let st := CropTool.mkState 10 10 60 40 None (Some "16:9") in
  CropTool.truthy (CropTool.selectedElementId p) = false
  /\ CropTool.handleApplyCrop p st = (st, [])
  /\ CropTool.debouncedCropApplication p st = [].
Proof.
  intros p st.
  assert (H : CropTool.truthy (CropTool.selectedElementId p) = false)
    by reflexivity.
  split; [exact H|].
  destruct (no_selection_never_commits p st H) as (H1 & _ & H3 & _).
  exact (conj H1 H3).
Defined.

(** X3: when the selected id names no element of the list, Done is ignored
    without any notice and the selection effect loads nothing, but the
    debounce timer and Cancel still call onCropApply with that id. *)
Theorem dangling_selection (p : CropTool.Props) (st : CropTool.State)
    (sel : string) :
  CropTool.selectedElementId p = Some sel ->
  sel <> EmptyString ->
  (forall el, In el (CropTool.elements p) -> timeline.id el <> sel) ->
  CropTool.handleApplyCrop p st = (st, [])
  /\ CropTool.resetOnSelection p st = st
  /\ CropTool.debouncedCropApplication p st
     = [CropTool.onCropApply sel (CropTool.currentCrop st)]
  /\ snd (CropTool.handleResetCrop p st)
     = [CropTool.onCropApply sel (timeline.mkCrop 0 0 100 100)].
Proof.
  intros Hsel Hne Hmiss.
  pose proof (selectedElement_None_of_missing p sel Hsel Hmiss) as Hnone.
  apply truthy_Some in Hne.
  unfold CropTool.handleApplyCrop, CropTool.handleResetCrop,
    CropTool.debouncedCropApplication, CropTool.resetOnSelection.
  rewrite Hnone, Hsel, Hne. done.
Qed.

Lemma dangling_selection_witness :
  let clip := timeline.mkElement "v1" timeline.video 0 10
                (timeline.mkContent "clip.mp4" None None None) in
  let p := CropTool.mkProps [clip] (Some "gone") in
  let st := CropTool.mkState 10 10 60 40 None (Some "freeform") in
  CropTool.selectedElementId p = Some "gone"
  /\ "gone" <> EmptyString
  /\ (forall el, In el (CropTool.elements p) -> timeline.id el <> "gone")
  /\ CropTool.handleApplyCrop p st = (st, [])
  /\ CropTool.debouncedCropApplication p st
     = [CropTool.onCropApply "gone" (timeline.mkCrop 10 10 60 40)].
Proof.
  intros clip p st.
  assert (H1 : CropTool.selectedElementId p = Some "gone") by reflexivity.
  assert (H2 : "gone" <> EmptyString) by discriminate.
  assert (H3 : forall el, In el (CropTool.elements p) -> timeline.id el <> "gone").
  { intros el [<-|[]]. discriminate. }
  repeat (split; [assumption|]).
  destruct (dangling_selection p st "gone" H1 H2 H3) as (Ha & _ & Hb & _).
  exact (conj Ha Hb).
Defined.

Lemma offered_nonzero r : In r CropTool.offeredRatios -> 0 < r.
Proof.
  intros H. apply offered_cases in H.
  repeat (destruct H as [H|H]); subst; reflexivity.
Qed.

Lemma lockedRatio_ratioOf st sel r :
  CropTool.selectedAspectRatio st = Some sel ->
  CropTool.lockedRatio st = Some r -> CropTool.ratioOf sel = Some r.
Proof.
  unfold CropTool.lockedRatio, CropTool.ratioOf. intros ->.
  destruct (_ && _); [|discriminate].
  destruct (CropTool.findOption sel) as [o|]; [|discriminate].
  destruct (CropTool.value o) as [v|]; [|discriminate].
  destruct (CropTool.truthy_number v); [|discriminate]. done.
Qed.

(** X4: choosing Freeform, or an id that names no option, records the choice
    and nothing else: the rectangle and the preview stay as they are, and no
    ratio is locked afterwards. *)
Theorem unlocking_choice_keeps_crop (ratioId : string) (st : CropTool.State) :
  CropTool.ratioOf ratioId = None ->
  CropTool.handleAspectRatioChange ratioId st
  = CropTool.mkState (CropTool.cropX st) (CropTool.cropY st)
                     (CropTool.cropWidth st) (CropTool.cropHeight st)
                     (CropTool.previewCrop st) (Some ratioId)
  /\ CropTool.lockedRatio (CropTool.handleAspectRatioChange ratioId st) = None.
Proof.
  intros Hr.
  assert (Hstep : CropTool.handleAspectRatioChange ratioId st
                  = CropTool.mkState (CropTool.cropX st) (CropTool.cropY st)
                      (CropTool.cropWidth st) (CropTool.cropHeight st)
                      (CropTool.previewCrop st) (Some ratioId)).
  { unfold CropTool.handleAspectRatioChange. unfold CropTool.ratioOf in Hr.
    destruct (CropTool.findOption ratioId) as [o|]; [|done]. by rewrite Hr. }
  split; [exact Hstep|]. rewrite Hstep.
  destruct (CropTool.lockedRatio _) as [r|] eqn:Hl; [|done].
  apply (lockedRatio_ratioOf _ ratioId) in Hl; [congruence | done].
Qed.

Lemma unlocking_choice_keeps_crop_witness :
  let st := CropTool.mkState 5 5 80 45 None (Some "16:9") in
  CropTool.ratioOf "freeform" = None
  /\ CropTool.handleAspectRatioChange "freeform" st
     = CropTool.mkState 5 5 80 45 None (Some "freeform").
Proof.
  intros st.
  assert (H : CropTool.ratioOf "freeform" = None) by reflexivity.
  split; [exact H|].
  exact (proj1 (unlocking_choice_keeps_crop "freeform" st H)).
Defined.

(** X5: choosing the same locked ratio a second time changes nothing: the
    rectangle after two selections is, as numbers, the rectangle after one,
    and the choice is the same. *)
Theorem aspect_ratio_change_idempotent (ratioId : string) (r : Q)
    (st : CropTool.State) :
  CropTool.ratioOf ratioId = Some r ->
  let once := CropTool.handleAspectRatioChange ratioId st in
  let twice := CropTool.handleAspectRatioChange ratioId once in
  CropTool.sameCrop twice once
  /\ CropTool.selectedAspectRatio twice = CropTool.selectedAspectRatio once.
Proof.
  intros Hr once twice.
  pose proof (offered_nonzero r (ratioOf_offered _ _ Hr)) as Hpos.
  subst twice once. unfold CropTool.handleAspectRatioChange.
  unfold CropTool.ratioOf in Hr.
  destruct (CropTool.findOption ratioId) as [o|]; [|discriminate].
  rewrite Hr. clear Hr o. unfold CropTool.sameCrop.
  destruct (gt (CropTool.cropWidth st / r) 100) eqn:Hgt;
    cbn [CropTool.cropWidth CropTool.cropHeight CropTool.cropX CropTool.cropY
         CropTool.selectedAspectRatio CropTool.previewCrop].
  - assert (Hsame : gt (100 * r / r) 100 = false).
    { apply gt_false.
      assert (E : 100 * r / r == 100) by (field; lra).
      rewrite E. discriminate. }
    rewrite Hsame.
    cbn [CropTool.cropWidth CropTool.cropHeight CropTool.cropX CropTool.cropY
         CropTool.selectedAspectRatio].
    repeat split; try reflexivity. field. lra.
  - rewrite Hgt.
    cbn [CropTool.cropWidth CropTool.cropHeight CropTool.cropX CropTool.cropY
         CropTool.selectedAspectRatio].
    repeat split; reflexivity.
Qed.

Lemma aspect_ratio_change_idempotent_witness :
  let st := CropTool.mkState 0 0 100 100 None (Some "freeform") in
  CropTool.ratioOf "9:16" = Some (9 / 16)
  /\ CropTool.sameCrop
       (CropTool.handleAspectRatioChange "9:16"
          (CropTool.handleAspectRatioChange "9:16" st))
       (CropTool.handleAspectRatioChange "9:16" st).
Proof.
  intros st.
  assert (H : CropTool.ratioOf "9:16" = Some (9 / 16)) by reflexivity.
  split; [exact H|].
  exact (proj1 (aspect_ratio_change_idempotent "9:16" (9 / 16) st H)).
Defined.

(** The locked ratio is read off the aspect-ratio choice alone. *)
Lemma lockedRatio_ext a b :
  CropTool.selectedAspectRatio a = CropTool.selectedAspectRatio b ->
  CropTool.lockedRatio a = CropTool.lockedRatio b.
Proof. unfold CropTool.lockedRatio. by intros ->. Qed.

Lemma lockedRatio_onWidthChange v st :
  CropTool.lockedRatio (CropTool.onWidthChange v st) = CropTool.lockedRatio st.
Proof.
  apply lockedRatio_ext. unfold CropTool.onWidthChange.
  by destruct (CropTool.lockedRatio st).
Qed.

Lemma lockedRatio_onHeightChange v st :
  CropTool.lockedRatio (CropTool.onHeightChange v st) = CropTool.lockedRatio st.
Proof.
  apply lockedRatio_ext. unfold CropTool.onHeightChange.
  by destruct (CropTool.lockedRatio st).
Qed.

(** X6: under a locked ratio the two sliders undo each other: after a width
    edit, moving the height slider to the height just derived gives back the
    same rectangle, and likewise with width and height exchanged. *)
Theorem locked_sliders_round_trip (st : CropTool.State) (r v : Q) :
  CropTool.lockedRatio st = Some r ->
  (let st1 := CropTool.onWidthChange v st in
   CropTool.sameCrop (CropTool.onHeightChange (CropTool.cropHeight st1) st1) st1)
  /\ (let st1 := CropTool.onHeightChange v st in
      CropTool.sameCrop (CropTool.onWidthChange (CropTool.cropWidth st1) st1) st1).
Proof.
  intros Hr.
  pose proof (offered_nonzero r (lockedRatio_offered _ _ Hr)) as Hpos.
  split; intros st1.
  - unfold CropTool.onHeightChange.
    subst st1. rewrite lockedRatio_onWidthChange, Hr.
    unfold CropTool.onWidthChange. rewrite Hr. unfold CropTool.sameCrop. cbn.
    repeat split; try reflexivity. field. lra.
  - unfold CropTool.onWidthChange.
    subst st1. rewrite lockedRatio_onHeightChange, Hr.
    unfold CropTool.onHeightChange. rewrite Hr. unfold CropTool.sameCrop. cbn.
    repeat split; try reflexivity. field. lra.
Qed.

Lemma locked_sliders_round_trip_witness :
  let st := CropTool.mkState 0 0 50 50 None (Some "4:3") in
  CropTool.lockedRatio st = Some (4 / 3)
  /\ CropTool.sameCrop
       (CropTool.onHeightChange
          (CropTool.cropHeight (CropTool.onWidthChange 80 st))
          (CropTool.onWidthChange 80 st))
       (CropTool.onWidthChange 80 st).
Proof.
  intros st.
  assert (H : CropTool.lockedRatio st = Some (4 / 3)) by reflexivity.
  split; [exact H|].
  exact (proj1 (locked_sliders_round_trip st (4 / 3) 80 H)).
Defined.

(** X7: in freeform mode the sliders keep the rectangle in the working range:
    from a rectangle with x, y in [0,50] and width, height in [20,100], any
    value a slider can deliver leaves it there, and each slider changes its
    own field only. *)
Theorem freeform_sliders_stay_in_range (st : CropTool.State) (v : Q) :
  CropTool.withinBounds st ->
  CropTool.lockedRatio st = None ->
  (CropTool.inRange 0 50 v ->
     CropTool.withinBounds (CropTool.onXChange v st)
     /\ CropTool.withinBounds (CropTool.onYChange v st))
  /\ (CropTool.inRange 20 100 v ->
        CropTool.withinBounds (CropTool.onWidthChange v st)
        /\ CropTool.withinBounds (CropTool.onHeightChange v st)
        /\ CropTool.onWidthChange v st
           = CropTool.mkState (CropTool.cropX st) (CropTool.cropY st) v
               (CropTool.cropHeight st) (CropTool.previewCrop st)
               (CropTool.selectedAspectRatio st)
        /\ CropTool.onHeightChange v st
           = CropTool.mkState (CropTool.cropX st) (CropTool.cropY st)
               (CropTool.cropWidth st) v (CropTool.previewCrop st)
               (CropTool.selectedAspectRatio st)).
Proof.
  intros (Hx & Hy & Hw & Hh) Hfree.
  unfold CropTool.onWidthChange, CropTool.onHeightChange. rewrite Hfree.
  unfold CropTool.withinBounds. cbn. tauto.
Qed.

Lemma freeform_sliders_stay_in_range_witness :
  let st := CropTool.mkState 0 0 100 100 None (Some "freeform") in
  CropTool.withinBounds st
  /\ CropTool.lockedRatio st = None
  /\ CropTool.inRange 20 100 35
  /\ CropTool.withinBounds (CropTool.onWidthChange 35 st).
Proof.
  intros st.
  assert (H1 : CropTool.withinBounds st).
  { unfold CropTool.withinBounds, CropTool.inRange. simpl.
    repeat split; discriminate. }
  assert (H2 : CropTool.lockedRatio st = None) by reflexivity.
  assert (H3 : CropTool.inRange 20 100 35) by (split; discriminate).
  repeat (split; [assumption|]).
  exact (proj1 (proj2 (freeform_sliders_stay_in_range st 35 H1 H2) H3)).
Defined.

(** ** Further properties of the preview *)

(** *** What is rendered at a time *)

Lemma isOverlay_spec t el :
  Selector.isOverlay t el = true <->
  (timeline.type el = timeline.image \/ timeline.type el = timeline.text)
  /\ Selector.contains el t.
Proof.
  unfold Selector.isOverlay.
  rewrite !andb_true_iff, inWindow_contains.
  destruct (timeline.type el); simpl; intuition congruence.
Qed.

(** Each element in window falls under exactly one of the three filters. *)
Lemma rendered_count (t : Q) (l : list TimelineElement) :
  length (List.filter (Selector.inWindow t) l)
  = (length (List.filter (Selector.isActiveVideo t) l)
     + length (List.filter (Selector.isActiveAudio t) l)
     + length (List.filter (Selector.isOverlay t) l))%nat.
Proof.
  induction l as [|e l IH]; [reflexivity|].
  assert (Hone : Nat.b2n (Selector.inWindow t e)
                 = (Nat.b2n (Selector.isActiveVideo t e)
                    + Nat.b2n (Selector.isActiveAudio t e)
                    + Nat.b2n (Selector.isOverlay t e))%nat).
  { unfold Selector.isActiveVideo, Selector.isActiveAudio, Selector.isOverlay.
    by destruct (Selector.inWindow t e), (timeline.type e). }
  simpl.
  destruct (Selector.inWindow t e), (Selector.isActiveVideo t e),
    (Selector.isActiveAudio t e), (Selector.isOverlay t e);
    simpl in *; lia.
Qed.

(** X8: the overlays are exactly the image and text elements whose window
    contains the time, in list order; every element in window is counted
    once among the videos in window, the active audio clips and the
    overlays; and of the videos in window only the first is displayed, so a
    second one is rendered nowhere. *)
Theorem overlays_partition (elements : list TimelineElement) (currentTime : Q) :
  (forall e, In e (Selector.overlayElements elements currentTime) <->
     In e elements
     /\ (timeline.type e = timeline.image \/ timeline.type e = timeline.text)
     /\ Selector.contains e currentTime)
  /\ length (List.filter (Selector.inWindow currentTime) elements)
     = (length (List.filter (Selector.isActiveVideo currentTime) elements)
        + length (Selector.activeAudioElements elements currentTime)
        + length (Selector.overlayElements elements currentTime))%nat
  /\ (forall v, Selector.videoElement elements currentTime = Some v ->
        ~ In v (Selector.overlayElements elements currentTime)
        /\ ~ In v (Selector.activeAudioElements elements currentTime))
  /\ (forall e, In e elements -> timeline.type e = timeline.video ->
        Selector.videoElement elements currentTime <> Some e ->
        ~ In e (Selector.overlayElements elements currentTime)
        /\ ~ In e (Selector.activeAudioElements elements currentTime)).
Proof.
  unfold Selector.overlayElements, Selector.activeAudioElements,
    Selector.videoElement.
  split; [|split; [apply rendered_count|split]].
  - intros e. rewrite filter_In, isOverlay_spec. tauto.
  - intros v Hv. apply find_some in Hv as [_ Hv].
    apply isActiveVideo_spec in Hv as [Hty _].
    rewrite !filter_In, isOverlay_spec, isActiveAudio_spec.
    split; intros H; intuition congruence.
  - intros e _ Hty _.
    rewrite !filter_In, isOverlay_spec, isActiveAudio_spec.
    split; intros H; intuition congruence.
Qed.

(** *** The time display *)

(** The floor of a number is the one integer just below it. *)
Lemma Qfloor_unique (q : Q) (k : Z) :
  inject_Z k <= q -> q < inject_Z (k + 1) -> Qfloor q = k.
Proof.
  intros Hlo Hhi.
  pose proof (Qfloor_le q) as Fl. pose proof (Qlt_floor q) as Fh.
  assert (H1 : (k < Qfloor q + 1)%Z).
  { rewrite Zlt_Qlt. eapply Qle_lt_trans; eauto. }
  assert (H2 : (Qfloor q < k + 1)%Z).
  { rewrite Zlt_Qlt. eapply Qle_lt_trans; eauto. }
  lia.
Qed.

Lemma Qfloor_div_60 (t : Q) : Qfloor (t / 60) = (Qfloor t / 60)%Z.
Proof.
  pose proof (Qfloor_le t) as Fl. pose proof (Qlt_floor t) as Fh.
  pose proof (Z.mod_pos_bound (Qfloor t) 60 ltac:(lia)) as Hm.
  pose proof (Z.div_mod (Qfloor t) 60 ltac:(lia)) as Hd.
  assert (Hlo : inject_Z (Qfloor t / 60) * 60 <= inject_Z (Qfloor t)).
  { change 60 with (inject_Z 60).
    rewrite <- inject_Z_mult, <- Zle_Qle. lia. }
  assert (Hhi : inject_Z (Qfloor t + 1) <= inject_Z (Qfloor t / 60 + 1) * 60).
  { change 60 with (inject_Z 60).
    rewrite <- inject_Z_mult, <- Zle_Qle. lia. }
  apply Qfloor_unique.
  - apply Qle_shift_div_l; [reflexivity|]. lra.
  - apply Qlt_shift_div_r; [reflexivity|]. lra.
Qed.

Lemma Qfloor_rem_60 (t : Q) : 0 <= t -> Qfloor (rem t 60) = (Qfloor t mod 60)%Z.
Proof.
  intros Ht. unfold rem, Math_trunc.
  assert (Hq : Qle_bool 0 (t / 60) = true).
  { apply Qle_bool_iff. apply Qle_shift_div_l; [reflexivity|]. lra. }
  rewrite Hq, Qfloor_div_60.
  pose proof (Z.div_mod (Qfloor t) 60 ltac:(lia)) as Hd.
  pose proof (Qfloor_le t) as Fl. pose proof (Qlt_floor t) as Fh.
  assert (E : inject_Z (Qfloor t mod 60) + 60 * inject_Z (Qfloor t / 60)
              == inject_Z (Qfloor t)).
  { change 60 with (inject_Z 60).
    rewrite <- inject_Z_mult, <- inject_Z_plus.
    apply inject_Z_injective. lia. }
  assert (E1 : inject_Z (Qfloor t mod 60 + 1) == inject_Z (Qfloor t mod 60) + 1).
  { by rewrite inject_Z_plus. }
  assert (E2 : inject_Z (Qfloor t + 1) == inject_Z (Qfloor t) + 1).
  { by rewrite inject_Z_plus. }
  apply Qfloor_unique; lra.
Qed.

(** A number of at most two digits is padded to exactly two characters. *)
Lemma padStart_two_digits (n : Z) :
  (0 <= n < 100)%Z -> String.length (padStart 2 "0"%char (toString n)) = 2%nat.
Proof.
  intros Hn.
  assert (Hall : forallb (fun k => Nat.eqb (String.length
                    (padStart 2 "0"%char (toString (Z.of_nat k)))) 2)
                   (List.seq 0 100) = true) by (vm_compute; reflexivity).
  rewrite forallb_forall in Hall.
  specialize (Hall (Z.to_nat n)). rewrite Z2Nat.id in Hall by lia.
  apply Nat.eqb_eq, Hall, in_seq. lia.
Qed.

Lemma length_append (a b : string) :
  String.length (String.append a b) = (String.length a + String.length b)%nat.
Proof. induction a as [|c a IH]; simpl; [done|]. by rewrite IH. Qed.

(** X9: for a time that is not negative, [formatTime] prints the whole
    minutes and, after a colon, the whole seconds left over: the two numbers
    are the quotient and the remainder of the floor of the time by 60, so the
    seconds are always between 0 and 59 and the minutes are not wrapped into
    hours.  Below 6000 seconds the text has exactly five characters. *)
Theorem formatTime_minutes_seconds (t : Q) :
  0 <= t ->
  let minutes := (Qfloor t / 60)%Z in
  let seconds := (Qfloor t mod 60)%Z in
  Preview.formatTime t
  = String.append (padStart 2 "0"%char (toString minutes))
      (String.append ":" (padStart 2 "0"%char (toString seconds)))
  /\ (0 <= seconds < 60)%Z
  /\ (0 <= minutes)%Z
  /\ (60 * minutes + seconds = Qfloor t)%Z
  /\ (t < 6000 -> String.length (Preview.formatTime t) = 5%nat).
Proof.
  intros Ht minutes seconds.
  assert (Hfmt : Preview.formatTime t
                 = String.append (padStart 2 "0"%char (toString minutes))
                     (String.append ":" (padStart 2 "0"%char (toString seconds)))).
  { unfold Preview.formatTime, Math_floor.
    by rewrite Qfloor_div_60, Qfloor_rem_60. }
  assert (Hfl : (0 <= Qfloor t)%Z).
  { change 0%Z with (Qfloor 0). by apply Qfloor_resp_le. }
  pose proof (Z.mod_pos_bound (Qfloor t) 60 ltac:(lia)) as Hs.
  pose proof (Z.div_mod (Qfloor t) 60 ltac:(lia)) as Hd.
  pose proof (Z.div_pos (Qfloor t) 60 Hfl ltac:(lia)) as Hm.
  repeat split; try (subst minutes seconds; lia).
  - exact Hfmt.
  - intros Hlt. rewrite Hfmt, !length_append.
    assert (Qfloor t < 6000)%Z.
    { rewrite Zlt_Qlt. eapply Qle_lt_trans; [apply Qfloor_le | exact Hlt]. }
    rewrite !padStart_two_digits; [reflexivity | subst seconds; lia|].
    subst minutes. split; [lia|]. apply Z.div_lt_upper_bound; lia.
Qed.

Lemma formatTime_minutes_seconds_witness :
  0 <= 75.5
  /\ Preview.formatTime 75.5 = "01:15"
  /\ String.length (Preview.formatTime 75.5) = 5%nat.
Proof.
  assert (H : 0 <= 75.5) by discriminate.
  split; [exact H|].
  destruct (formatTime_minutes_seconds 75.5 H) as (Hfmt & _ & _ & _ & Hlen).
  split; [rewrite Hfmt; reflexivity|]. apply Hlen. reflexivity.
Defined.

(** *** The audio track manager *)

Section AudioMoreFacts.
Import Preview.
Implicit Types (st : AudioState) (r : Render) (a : TimelineElement).

Lemma forEach_skip {S A X} (f : X -> Eff S A) (l : list X) (st : S) :
  (forall x, In x l -> f x st = (st, [])) -> forEach f l st = (st, []).
Proof.
  induction l as [|x l IH]; intros H; [reflexivity|].
  simpl. unfold andThen. rewrite (H x) by (by left).
  rewrite IH; [reflexivity|]. intros y Hy. apply H. by right.
Qed.

Lemma findId_Some_of_In a l : In a l -> is_Some (findId (timeline.id a) l).
Proof.
  intros Hin. destruct (findId (timeline.id a) l) eqn:Hf; [eauto|].
  apply findId_None in Hf. destruct Hf. by apply in_map.
Qed.

Lemma findId_Some k l a : findId k l = Some a -> In a l /\ timeline.id a = k.
Proof.
  unfold findId. intros H. apply find_some in H as [Hin Heq].
  by apply String.eqb_eq in Heq.
Qed.

(** A loop that rewrites, for each clip, the player under the clip's id. *)
Lemma update_forEach_lookup {A} (step : TimelineElement -> Eff AudioState A)
    (g : TimelineElement -> media.t -> media.t) :
  (forall a st k,
     audioRefs (fst (step a st)) !! k
     = if String.eqb (timeline.id a) k then g a <$> audioRefs st !! k
       else audioRefs st !! k) ->
  forall l st k,
    NoDup (List.map timeline.id l) ->
    audioRefs (fst (forEach step l st)) !! k
    = match findId k l with
      | Some a => g a <$> audioRefs st !! k
      | None => audioRefs st !! k
      end.
Proof.
  intros Hstep l. induction l as [|b l IH]; intros st k Hnd; [done|].
  apply NoDup_cons in Hnd as [Hb Hnd].
  rewrite forEach_cons_fst, IH, Hstep by done.
  unfold findId. simpl.
  destruct (String.eqb_spec (timeline.id b) k) as [<-|Hne]; [|done].
  assert (findId (timeline.id b) l = None) as Hf.
  { apply findId_None. by rewrite <- list_elem_of_In. }
  unfold findId in Hf. by rewrite Hf.
Qed.

(** A loop whose steps keep the two other refs keeps them. *)
Lemma forEach_refs {A X} (step : X -> Eff AudioState A) (l : list X) st :
  (forall x st, activeAudioElementsRef (fst (step x st)) = activeAudioElementsRef st
                /\ lastTimeRef (fst (step x st)) = lastTimeRef st) ->
  activeAudioElementsRef (fst (forEach step l st)) = activeAudioElementsRef st
  /\ lastTimeRef (fst (forEach step l st)) = lastTimeRef st.
Proof.
  intros Hstep. revert st. induction l as [|b l IH]; intros st; [done|].
  rewrite forEach_cons_fst. destruct (IH (fst (step b st))) as [-> ->].
  apply Hstep.
Qed.

End AudioMoreFacts.

(** X10: the local time of a clip is never negative; for a clip whose window
    contains the clock time it is the time since the clip's start, at most
    the clip's length; before the clip's start it is zero. *)
Theorem audioLocalTime_bounds (r : Preview.Render) (a : TimelineElement) :
  0 <= Preview.audioLocalTime r a
  /\ (Selector.contains a (Preview.currentTime r) ->
        Preview.audioLocalTime r a = Preview.currentTime r - timeline.start a
        /\ Preview.audioLocalTime r a <= timeline.end_ a - timeline.start a)
  /\ (Preview.currentTime r <= timeline.start a ->
        Preview.audioLocalTime r a == 0).
Proof.
  unfold Preview.audioLocalTime, Math_max, Selector.contains.
  destruct (Qle_bool 0 (Preview.currentTime r - timeline.start a)) eqn:Hle.
  - apply Qle_bool_iff in Hle. repeat split; lra.
  - assert (~ 0 <= Preview.currentTime r - timeline.start a) as Hn.
    { intros H. apply Qle_bool_iff in H. congruence. }
    repeat split; lra.
Qed.

(** X11: with the engine volume in the slider's range [0,100] and the clip's
    own volume, when it has one, in [0,1], every value the component assigns
    to a player's volume lies in [0,1]: the one given at creation and the one
    given by the transport and volume effects. *)
Theorem audio_volume_in_range (r : Preview.Render) (a : TimelineElement) :
  0 <= Preview.volume r /\ Preview.volume r <= 100 ->
  (forall v, timeline.volume (timeline.content a) = Some v -> 0 <= v /\ v <= 1) ->
  (0 <= Preview.media.volume (Preview.newAudio r a)
   /\ Preview.media.volume (Preview.newAudio r a) <= 1)
  /\ (0 <= Preview.finalVolume r a /\ Preview.finalVolume r a <= 1).
Proof.
  intros [Hlo Hhi] Hclip.
  unfold Preview.newAudio, Preview.finalVolume. cbn [Preview.media.volume].
  assert (Hv : 0 <= Preview.volume r / 100 /\ Preview.volume r / 100 <= 1).
  { unfold Qdiv. cbn [Qinv Qnum Qden]. lra. }
  destruct (timeline.volume (timeline.content a)) as [v|].
  - destruct (Hclip v eq_refl). split; [lra|]. nra.
  - split; lra.
Qed.

Lemma audio_volume_in_range_witness :
  let a1 := timeline.mkElement "a1" timeline.audio 0 5
              (timeline.mkContent "a1.mp3" None (Some 0.5) None) in
  let r := Preview.mkRender true 4 10 [a1] 80 false in
  (0 <= Preview.volume r /\ Preview.volume r <= 100)
  /\ (forall v, timeline.volume (timeline.content a1) = Some v -> 0 <= v /\ v <= 1)
  /\ Preview.finalVolume r a1 <= 1.
Proof.
  intros a1 r.
  assert (H1 : 0 <= Preview.volume r /\ Preview.volume r <= 100)
    by (split; discriminate).
  assert (H2 : forall v, timeline.volume (timeline.content a1) = Some v ->
                         0 <= v /\ v <= 1).
  { intros v [= <-]. split; discriminate. }
  repeat (split; [assumption|]).
  exact (proj2 (proj2 (audio_volume_in_range r a1 H1 H2))).
Defined.

Section AudioReconcileFacts.
Import Preview.
Variable canPlay : string -> bool.
Implicit Types (st : AudioState) (r : Render) (a : TimelineElement).

Lemma createAudio_refs r a st :
  activeAudioElementsRef (fst (createAudio canPlay r a st)) = activeAudioElementsRef st
  /\ lastTimeRef (fst (createAudio canPlay r a st)) = lastTimeRef st.
Proof.
  unfold createAudio. destruct (audioRefs st !! timeline.id a); [done|].
  destruct (isPlaying r); [|done]. by destruct (playAudio _ _ _).
Qed.

Lemma removeAudio_refs active k st :
  activeAudioElementsRef (fst (removeAudio active k st)) = activeAudioElementsRef st
  /\ lastTimeRef (fst (removeAudio active k st)) = lastTimeRef st.
Proof. unfold removeAudio. by destruct (isActiveId active k). Qed.

(** A pass stores the active clips and leaves the last tick alone. *)
Lemma reconcileAudio_refs r st :
  activeAudioElementsRef (fst (reconcileAudio canPlay r st))
  = Selector.activeAudioElements (elements r) (currentTime r)
  /\ lastTimeRef (fst (reconcileAudio canPlay r st)) = lastTimeRef st.
Proof.
  rewrite reconcileAudio_fst.
  set (active := Selector.activeAudioElements (elements r) (currentTime r)).
  set (st0 := mkAudio (audioRefs st) active (lastTimeRef st)).
  destruct (forEach_refs (removeAudio active)
              (keys (audioRefs (fst (forEach (createAudio canPlay r) active st0))))
              (fst (forEach (createAudio canPlay r) active st0))
              (removeAudio_refs active)) as [-> ->].
  destruct (forEach_refs (createAudio canPlay r) active st0
              (createAudio_refs r)) as [-> ->].
  done.
Qed.

(** A pass over a pool that already holds exactly the active clips, with the
    active clips already stored, does nothing. *)
Lemma reconcileAudio_settled r st :
  let active := Selector.activeAudioElements (elements r) (currentTime r) in
  activeAudioElementsRef st = active ->
  (forall a, In a active -> is_Some (audioRefs st !! timeline.id a)) ->
  (forall k, is_Some (audioRefs st !! k) -> isActiveId active k = true) ->
  reconcileAudio canPlay r st = (st, []).
Proof.
  intros active Href Hall Honly. unfold reconcileAudio. fold active.
  assert (Hst : mkAudio (audioRefs st) active (lastTimeRef st) = st).
  { destruct st. simpl in *. by subst. }
  rewrite Hst. unfold andThen.
  rewrite (forEach_skip (createAudio canPlay r) active st).
  - rewrite (forEach_skip (removeAudio active) (keys (audioRefs st)) st); [done|].
    intros k Hk. apply keys_spec in Hk. unfold removeAudio.
    by rewrite (Honly k Hk).
  - intros a Ha. destruct (Hall a Ha) as [p0 Hp].
    by apply (createAudio_Some canPlay r a st p0).
Qed.

End AudioReconcileFacts.

(** X12: after a reconciliation pass the pool holds a session for every
    active clip and for nothing else; a session that existed before for an
    id that is still active is kept as it was, not created anew. *)
Theorem reconcile_pool_is_active_set (canPlay : string -> bool)
    (r : Preview.Render) (st : Preview.AudioState) :
  let active :=
    Selector.activeAudioElements (Preview.elements r) (Preview.currentTime r) in
  let st' := fst (Preview.reconcileAudio canPlay r st) in
  (forall k, is_Some (Preview.audioRefs st' !! k)
             <-> exists a, In a active /\ timeline.id a = k)
  /\ (forall a p, In a active ->
        Preview.audioRefs st !! timeline.id a = Some p ->
        Preview.audioRefs st' !! timeline.id a = Some p)
  /\ Preview.activeAudioElementsRef st' = active.
Proof.
  intros active st'. subst st'. split; [|split].
  - intros k. rewrite reconcileAudio_lookup. fold active.
    rewrite <- isActiveId_spec.
    destruct (Preview.isActiveId active k) eqn:Hk.
    + split; [done|]. intros _.
      destruct (Preview.audioRefs st !! k); [eauto|].
      apply isActiveId_spec in Hk as (a & Ha & <-).
      destruct (findId_Some_of_In a active Ha) as [a' ->]. simpl. eauto.
    + split; [by intros [? ?] | done].
  - intros a p Ha Hp. rewrite reconcileAudio_lookup. fold active.
    assert (Preview.isActiveId active (timeline.id a) = true) as ->.
    { apply isActiveId_spec. eauto. }
    by rewrite Hp.
  - apply reconcileAudio_refs.
Qed.

(** X13: reconciliation is idempotent: a second pass with the same elements,
    time, transport and volume performs no action at all (no player is
    created, paused, removed, sought or started) and leaves the state as
    the first pass left it. *)
Theorem reconcile_idempotent (canPlay : string -> bool)
    (r : Preview.Render) (st : Preview.AudioState) :
  Preview.reconcileAudio canPlay r (fst (Preview.reconcileAudio canPlay r st))
  = (fst (Preview.reconcileAudio canPlay r st), []).
Proof.
  set (active := Selector.activeAudioElements (Preview.elements r)
                   (Preview.currentTime r)).
  apply reconcileAudio_settled.
  - apply reconcileAudio_refs.
  - fold active. intros a Ha. rewrite reconcileAudio_lookup. fold active.
    assert (Preview.isActiveId active (timeline.id a) = true) as ->.
    { apply isActiveId_spec. eauto. }
    destruct (Preview.audioRefs st !! timeline.id a); [eauto|].
    destruct (findId_Some_of_In a active Ha) as [a' ->]. simpl. eauto.
  - fold active. intros k Hk. rewrite reconcileAudio_lookup in Hk.
    fold active in Hk. destruct (Preview.isActiveId active k); [done|].
    by destruct Hk.
Qed.

Section AudioTransportFacts.
Import Preview.
Variable canPlay : string -> bool.
Implicit Types (st : AudioState) (r : Render) (a : TimelineElement).

Lemma syncAudio_refs r a st :
  activeAudioElementsRef (fst (syncAudio r a st)) = activeAudioElementsRef st
  /\ lastTimeRef (fst (syncAudio r a st)) = lastTimeRef st.
Proof.
  unfold syncAudio. destruct (audioRefs st !! timeline.id a); [|done].
  by destruct (gt _ _).
Qed.

Lemma syncAudioTime_active r st :
  activeAudioElementsRef (fst (syncAudioTime r st)) = activeAudioElementsRef st.
Proof.
  unfold syncAudioTime. destruct (gt _ _); [|done].
  pose proof (forEach_refs (syncAudio r) (activeAudioElementsRef st) st
                (syncAudio_refs r)) as [H _].
  by destruct (forEach _ _ _).
Qed.

Lemma controlAudio_lookup r a st k :
  audioRefs (fst (controlAudio canPlay r a st)) !! k
  = if String.eqb (timeline.id a) k
    then controlledAudio canPlay r a <$> audioRefs st !! k
    else audioRefs st !! k.
Proof.
  unfold controlAudio, controlledAudio, volumedAudio.
  destruct (String.eqb_spec (timeline.id a) k) as [<-|Hne].
  - destruct (audioRefs st !! timeline.id a) as [p|] eqn:Hp;
      [|cbn [fst]; by rewrite Hp].
    cbn [fmap option_fmap option_map].
    destruct (isPlaying r); [destruct (playAudio _ _ _)|];
      cbn [fst audioRefs]; by rewrite lookup_insert_eq.
  - destruct (audioRefs st !! timeline.id a) as [p|] eqn:Hp; [|done].
    destruct (isPlaying r); [destruct (playAudio _ _ _)|];
      cbn [fst audioRefs]; by rewrite lookup_insert_ne.
Qed.

Lemma controlAudio_refs r a st :
  activeAudioElementsRef (fst (controlAudio canPlay r a st)) = activeAudioElementsRef st
  /\ lastTimeRef (fst (controlAudio canPlay r a st)) = lastTimeRef st.
Proof.
  unfold controlAudio. destruct (audioRefs st !! timeline.id a); [|done].
  destruct (isPlaying r); [|done]. by destruct (playAudio _ _ _).
Qed.

Lemma controlAudioPlayback_lookup r st k :
  NoDup (List.map timeline.id (activeAudioElementsRef st)) ->
  audioRefs (fst (controlAudioPlayback canPlay r st)) !! k
  = match findId k (activeAudioElementsRef st) with
    | Some a => controlledAudio canPlay r a <$> audioRefs st !! k
    | None => audioRefs st !! k
    end.
Proof.
  intros Hnd. unfold controlAudioPlayback.
  by apply (update_forEach_lookup (controlAudio canPlay r)
              (controlledAudio canPlay r) (controlAudio_lookup r)).
Qed.

Lemma controlAudioPlayback_active r st :
  activeAudioElementsRef (fst (controlAudioPlayback canPlay r st))
  = activeAudioElementsRef st.
Proof.
  unfold controlAudioPlayback.
  apply (forEach_refs (controlAudio canPlay r)), controlAudio_refs.
Qed.

Lemma applyVolume_lookup r st k :
  NoDup (List.map timeline.id (activeAudioElementsRef st)) ->
  audioRefs (fst (applyVolume r st)) !! k
  = match findId k (activeAudioElementsRef st) with
    | Some a => volumedAudio r a <$> audioRefs st !! k
    | None => audioRefs st !! k
    end.
Proof.
  intros Hnd. unfold applyVolume.
  apply (update_forEach_lookup _ (volumedAudio r)); [|done].
  intros a st0 k0. unfold volumedAudio.
  destruct (String.eqb_spec (timeline.id a) k0) as [<-|Hne].
  - destruct (audioRefs st0 !! timeline.id a) as [p|] eqn:Hp;
      [|cbn [fst]; by rewrite Hp].
    cbn [fst audioRefs]. by rewrite lookup_insert_eq.
  - destruct (audioRefs st0 !! timeline.id a) as [p|] eqn:Hp; [|done].
    cbn [fst audioRefs]. by rewrite lookup_insert_ne.
Qed.

Lemma applyVolume_active r st :
  activeAudioElementsRef (fst (applyVolume r st)) = activeAudioElementsRef st.
Proof.
  unfold applyVolume. apply forEach_refs. intros a st0.
  by destruct (audioRefs st0 !! timeline.id a).
Qed.

(** The fields of a player after the body of the transport loop. *)
Lemma controlledAudio_fields r a p :
  media.volume (controlledAudio canPlay r a p) = finalVolume r a
  /\ media.muted (controlledAudio canPlay r a p) = finalMuted r a
  /\ media.currentTime (controlledAudio canPlay r a p) = media.currentTime p
  /\ media.src (controlledAudio canPlay r a p) = media.src p
  /\ media.paused (controlledAudio canPlay r a p)
     = if isPlaying r
       then (if canPlay (media.src p) then false else media.paused p)
       else true.
Proof.
  unfold controlledAudio, volumedAudio, playAudio. cbn [media.src].
  destruct (isPlaying r); [|done]. by destruct (canPlay _).
Qed.

End AudioTransportFacts.

Lemma Qabs_diff_self (x : Q) : Qabs (x - x) <= 0.2.
Proof.
  assert (E : x - x == 0) by lra. rewrite E. discriminate.
Qed.

(** X14: after a tick that moved the clock by more than 0.1, the player of
    every active session stands within 0.2 of the session's local time, and
    nothing but its position has changed; a tick of at most 0.1 performs no
    action and changes no player. *)
Theorem sync_restores_tolerance (r : Preview.Render) (st : Preview.AudioState)
    (a : TimelineElement) (p : Preview.media.t) :
  NoDup (List.map timeline.id (Preview.activeAudioElementsRef st)) ->
  In a (Preview.activeAudioElementsRef st) ->
  Preview.audioRefs st !! timeline.id a = Some p ->
  (0.1 < Qabs (Preview.currentTime r - Preview.lastTimeRef st) ->
     exists p',
       Preview.audioRefs (fst (Preview.syncAudioTime r st)) !! timeline.id a
       = Some p'
       /\ Qabs (Preview.media.currentTime p' - Preview.audioLocalTime r a) <= 0.2
       /\ Preview.media.set_currentTime (Preview.media.currentTime p) p' = p)
  /\ (Qabs (Preview.currentTime r - Preview.lastTimeRef st) <= 0.1 ->
        Preview.syncAudioTime r st
        = (Preview.mkAudio (Preview.audioRefs st)
             (Preview.activeAudioElementsRef st) (Preview.currentTime r), [])).
Proof.
  intros Hnd Hin Hp. split.
  - intros Htick. apply gt_true in Htick.
    destruct (syncAudioTime_fst r st) as [Hpool _].
    unfold Math_abs in Hpool. rewrite Htick in Hpool. rewrite Hpool.
    rewrite sync_forEach_lookup, (findId_NoDup a _ Hnd Hin), Hp by done.
    exists (Preview.syncedAudio r a p). split; [done|].
    unfold Preview.syncedAudio.
    destruct (gt _ 0.2) eqn:Hd.
    + split; [apply Qabs_diff_self | by destruct p].
    + apply gt_false in Hd. split; [exact Hd | by destruct p].
  - intros Hsmall. apply gt_false in Hsmall.
    unfold Preview.syncAudioTime, Math_abs. by rewrite Hsmall.
Qed.

Lemma sync_restores_tolerance_witness :
  let a1 := timeline.mkElement "a1" timeline.audio 0 5
              (timeline.mkContent "a1.mp3" None None None) in
  let p1 := Preview.media.mk "a1.mp3" 1 1 false false in
  let st := Preview.mkAudio (<["a1" := p1]> ∅) [a1] 1 in
  let r := Preview.mkRender true 4 10 [a1] 100 false in
  NoDup (List.map timeline.id (Preview.activeAudioElementsRef st))
  /\ In a1 (Preview.activeAudioElementsRef st)
  /\ Preview.audioRefs st !! timeline.id a1 = Some p1
  /\ 0.1 < Qabs (Preview.currentTime r - Preview.lastTimeRef st)
  /\ exists p',
       Preview.audioRefs (fst (Preview.syncAudioTime r st)) !! "a1" = Some p'
       /\ Qabs (Preview.media.currentTime p' - Preview.audioLocalTime r a1) <= 0.2.
Proof.
  intros a1 p1 st r.
  assert (H1 : NoDup (List.map timeline.id (Preview.activeAudioElementsRef st)))
    by compute_done.
  assert (H2 : In a1 (Preview.activeAudioElementsRef st)) by (simpl; auto).
  assert (H3 : Preview.audioRefs st !! timeline.id a1 = Some p1) by reflexivity.
  assert (H4 : 0.1 < Qabs (Preview.currentTime r - Preview.lastTimeRef st))
    by reflexivity.
  repeat (split; [assumption|]).
  destruct (proj1 (sync_restores_tolerance r st a1 p1 H1 H2 H3) H4)
    as (p' & Hp' & Htol & _).
  exists p'. auto.
Defined.

(** X15: a session created by a pass needs no correction on the same tick:
    the synchronisation effect that runs right after the pass never seeks
    the player of a clip that had no session before, however far the clock
    jumped, because the player was created at the clip's local time. *)
Theorem fresh_session_not_sought (canPlay : string -> bool) (r : Preview.Render)
    (st : Preview.AudioState) (a : TimelineElement) :
  NoDup (List.map timeline.id (Preview.elements r)) ->
  In a (Preview.elements r) ->
  timeline.type a = timeline.audio ->
  Selector.contains a (Preview.currentTime r) ->
  Preview.audioRefs st !! timeline.id a = None ->
  let st1 := fst (Preview.reconcileAudio canPlay r st) in
  (forall t, ~ In (Preview.audio_seek (timeline.id a) t)
               (snd (Preview.syncAudioTime r st1)))
  /\ Preview.audioRefs (fst (Preview.syncAudioTime r st1)) !! timeline.id a
     = Preview.audioRefs st1 !! timeline.id a.
Proof.
  intros Hnd Hin Hty Hc Hnone st1.
  set (active := Selector.activeAudioElements (Preview.elements r)
                   (Preview.currentTime r)).
  assert (Hact : In a active) by by apply selector_active_In.
  assert (Hnda : NoDup (List.map timeline.id active)) by by apply NoDup_filter_ids.
  assert (Hf : Preview.findId (timeline.id a) active = Some a)
    by by apply findId_NoDup.
  assert (Href : Preview.activeAudioElementsRef st1 = active)
    by apply reconcileAudio_refs.
  assert (Hp : Preview.audioRefs st1 !! timeline.id a
               = Some (Preview.createdAudio canPlay r a)).
  { subst st1. rewrite reconcileAudio_lookup. fold active.
    assert (Preview.isActiveId active (timeline.id a) = true) as ->.
    { apply isActiveId_spec. eauto. }
    by rewrite Hnone, Hf. }
  assert (Hnodrift : gt (Math_abs (Preview.media.currentTime
                                     (Preview.createdAudio canPlay r a)
                                   - Preview.audioLocalTime r a)) 0.2 = false).
  { destruct (createdAudio_fields canPlay r a) as (_ & -> & _).
    apply gt_false. apply Qabs_diff_self. }
  split.
  - intros t Hseek. rewrite syncAudioTime_snd in Hseek.
    destruct (gt _ 0.1); [|destruct Hseek].
    rewrite Href in Hseek.
    apply sync_forEach_actions in Hseek as (a' & p & Ha' & Hp' & Hgt & _); [|done].
    congruence.
  - destruct (syncAudioTime_fst r st1) as [-> _].
    destruct (gt _ 0.1); [|done].
    rewrite Href, sync_forEach_lookup, Hf, Hp by done.
    simpl. unfold Preview.syncedAudio. by rewrite Hnodrift.
Qed.

Lemma fresh_session_not_sought_witness :
  let a1 := timeline.mkElement "a1" timeline.audio 5 10
              (timeline.mkContent "a1.mp3" None None None) in
  let st := Preview.mkAudio ∅ [] 1 in
  let r := Preview.mkRender true 8 20 [a1] 100 false in
  let canPlay := fun _ : string => true in
  NoDup (List.map timeline.id (Preview.elements r))
  /\ In a1 (Preview.elements r)
  /\ timeline.type a1 = timeline.audio
  /\ Selector.contains a1 (Preview.currentTime r)
  /\ Preview.audioRefs st !! timeline.id a1 = None
  /\ ~ In (Preview.audio_seek "a1" 3)
         (snd (Preview.syncAudioTime r
                 (fst (Preview.reconcileAudio canPlay r st)))).
Proof.
  intros a1 st r canPlay.
  assert (H1 : NoDup (List.map timeline.id (Preview.elements r))) by compute_done.
  assert (H2 : In a1 (Preview.elements r)) by (simpl; auto).
  assert (H3 : timeline.type a1 = timeline.audio) by reflexivity.
  assert (H4 : Selector.contains a1 (Preview.currentTime r))
    by (split; discriminate).
  assert (H5 : Preview.audioRefs st !! timeline.id a1 = None) by reflexivity.
  repeat (split; [assumption|]).
  exact (proj1 (fresh_session_not_sought canPlay r st a1 H1 H2 H3 H4 H5) 3).
Defined.

(** X16: the transport effect brings every active session to the engine's
    state: its volume becomes (content.volume or 1) * volume / 100, its mute
    state isMuted || content.muted, and it is paused when the timeline is
    not playing and started when it is (a rejected start leaves it as it
    was); its position and source are not touched, and a player whose id is
    not among the stored active clips is not touched at all. *)
Theorem transport_effect_postcondition (canPlay : string -> bool)
    (r : Preview.Render) (st : Preview.AudioState) :
  NoDup (List.map timeline.id (Preview.activeAudioElementsRef st)) ->
  let st' := fst (Preview.controlAudioPlayback canPlay r st) in
  (forall a p, In a (Preview.activeAudioElementsRef st) ->
     Preview.audioRefs st !! timeline.id a = Some p ->
     exists p',
       Preview.audioRefs st' !! timeline.id a = Some p'
       /\ Preview.media.volume p' = Preview.finalVolume r a
       /\ Preview.media.muted p' = Preview.finalMuted r a
       /\ Preview.media.currentTime p' = Preview.media.currentTime p
       /\ Preview.media.src p' = Preview.media.src p
       /\ Preview.media.paused p'
          = if Preview.isPlaying r
            then (if canPlay (Preview.media.src p) then false
                  else Preview.media.paused p)
            else true)
  /\ (forall k, (forall a, In a (Preview.activeAudioElementsRef st) ->
                           timeline.id a <> k) ->
        Preview.audioRefs st' !! k = Preview.audioRefs st !! k)
  /\ (forall k, is_Some (Preview.audioRefs st' !! k)
                <-> is_Some (Preview.audioRefs st !! k)).
Proof.
  intros Hnd st'. subst st'. split; [|split].
  - intros a p Ha Hp.
    rewrite controlAudioPlayback_lookup, (findId_NoDup a _ Hnd Ha), Hp by done.
    exists (Preview.controlledAudio canPlay r a p). split; [done|].
    apply controlledAudio_fields.
  - intros k Hk. rewrite controlAudioPlayback_lookup by done.
    destruct (Preview.findId k _) as [a|] eqn:Hf; [|done].
    apply findId_Some in Hf as [Ha Hid]. by destruct (Hk a Ha).
  - intros k. rewrite controlAudioPlayback_lookup by done.
    destruct (Preview.findId k _); [|done].
    by rewrite fmap_is_Some.
Qed.

Lemma transport_effect_postcondition_witness :
  let a1 := timeline.mkElement "a1" timeline.audio 0 5
              (timeline.mkContent "a1.mp3" None (Some 0.5) (Some true)) in
  let p1 := Preview.media.mk "a1.mp3" 2 1 false false in
  let st := Preview.mkAudio (<["a1" := p1]> ∅) [a1] 2 in
  let r := Preview.mkRender false 2 10 [a1] 80 false in
  let canPlay := fun _ : string => true in
  NoDup (List.map timeline.id (Preview.activeAudioElementsRef st))
  /\ exists p',
       Preview.audioRefs (fst (Preview.controlAudioPlayback canPlay r st)) !! "a1"
       = Some p'
       /\ Preview.media.muted p' = true
       /\ Preview.media.paused p' = true.
Proof.
  intros a1 p1 st r canPlay.
  assert (H1 : NoDup (List.map timeline.id (Preview.activeAudioElementsRef st)))
    by compute_done.
  split; [exact H1|].
  destruct (proj1 (transport_effect_postcondition canPlay r st H1) a1 p1)
    as (p' & Hp' & _ & Hm & _ & _ & Hpa); [simpl; auto | reflexivity |].
  exists p'. auto.
Defined.

Section AudioCommitFacts.
Import Preview.
Variable canPlay : string -> bool.
Implicit Types (st : AudioState) (r : Render) (a : TimelineElement).

Lemma volumedAudio_fields r a p :
  media.volume (volumedAudio r a p) = finalVolume r a
  /\ media.muted (volumedAudio r a p) = finalMuted r a.
Proof. done. Qed.

(** The states between the four audio effects of a commit. *)
Lemma audioEffects_fst c r st :
  let st1 := fst (when (elementsChanged c || currentTimeChanged c
                        || isPlayingChanged c || volumeChanged c)
                       (reconcileAudio canPlay r) st) in
  let st2 := fst (when (currentTimeChanged c) (syncAudioTime r) st1) in
  let st3 := fst (when (isPlayingChanged c || isMutedChanged c || volumeChanged c)
                       (controlAudioPlayback canPlay r) st2) in
  fst (audioEffects canPlay c r st)
  = fst (when (volumeChanged c || isMutedChanged c) (applyVolume r) st3).
Proof. unfold audioEffects. by rewrite !andThen_fst. Qed.

End AudioCommitFacts.

(** X17: on every commit in which isPlaying, isMuted or volume changed (the
    mount among them), the effects that run leave every stored active clip
    that has a session with the mute state isMuted || content.muted and the
    volume (content.volume or 1) * volume / 100, also when the session was
    created by the same commit. *)
Theorem commit_applies_mute_and_volume (canPlay : string -> bool)
    (c : Preview.Changed) (r : Preview.Render) (st : Preview.AudioState) :
  Preview.isPlayingChanged c || Preview.isMutedChanged c
  || Preview.volumeChanged c = true ->
  NoDup (List.map timeline.id (Preview.elements r)) ->
  NoDup (List.map timeline.id (Preview.activeAudioElementsRef st)) ->
  let st' := fst (Preview.audioEffects canPlay c r st) in
  forall a p', In a (Preview.activeAudioElementsRef st') ->
    Preview.audioRefs st' !! timeline.id a = Some p' ->
    Preview.media.muted p' = Preview.finalMuted r a
    /\ Preview.media.volume p' = Preview.finalVolume r a.
Proof.
  intros Hflag Hnde Hnds st' a p'. subst st'.
  rewrite audioEffects_fst. rewrite Hflag.
  set (st1 := fst (Preview.when _ (Preview.reconcileAudio canPlay r) st)).
  set (st2 := fst (Preview.when _ (Preview.syncAudioTime r) st1)).
  assert (Hnd1 : NoDup (List.map timeline.id (Preview.activeAudioElementsRef st1))).
  { subst st1. unfold Preview.when.
    destruct (Preview.elementsChanged c || Preview.currentTimeChanged c
              || Preview.isPlayingChanged c || Preview.volumeChanged c); [|done].
    rewrite (proj1 (reconcileAudio_refs canPlay r st)).
    by apply NoDup_filter_ids. }
  assert (Href2 : Preview.activeAudioElementsRef st2
                  = Preview.activeAudioElementsRef st1).
  { subst st2. unfold Preview.when. destruct (Preview.currentTimeChanged c);
      [apply syncAudioTime_active | done]. }
  assert (Hnd2 : NoDup (List.map timeline.id (Preview.activeAudioElementsRef st2)))
    by by rewrite Href2.
  cbn [Preview.when].
  set (st3 := fst (Preview.controlAudioPlayback canPlay r st2)).
  assert (Href3 : Preview.activeAudioElementsRef st3
                  = Preview.activeAudioElementsRef st2)
    by apply controlAudioPlayback_active.
  assert (H3 : forall q, In a (Preview.activeAudioElementsRef st2) ->
                 Preview.audioRefs st3 !! timeline.id a = Some q ->
                 Preview.media.muted q = Preview.finalMuted r a
                 /\ Preview.media.volume q = Preview.finalVolume r a).
  { intros q Ha Hq. subst st3.
    rewrite controlAudioPlayback_lookup, (findId_NoDup a _ Hnd2 Ha) in Hq by done.
    destruct (Preview.audioRefs st2 !! timeline.id a) as [p2|]; [|done].
    injection Hq as <-.
    destruct (controlledAudio_fields canPlay r a p2) as (Hv & Hm & _). done. }
  unfold Preview.when.
  destruct (Preview.volumeChanged c || Preview.isMutedChanged c).
  - rewrite applyVolume_active, Href3. intros Ha Hp'.
    rewrite applyVolume_lookup in Hp' by (by rewrite Href3).
    rewrite Href3, (findId_NoDup a _ Hnd2 Ha) in Hp'.
    destruct (Preview.audioRefs st3 !! timeline.id a) as [p3|]; [|done].
    injection Hp' as <-. done.
  - cbn [skip fst]. rewrite Href3. intros Ha Hp'. by apply H3.
Qed.

Lemma commit_applies_mute_and_volume_witness :
  let a1 := timeline.mkElement "a1" timeline.audio 0 5
              (timeline.mkContent "a1.mp3" None None None) in
  let c := Preview.mkChanged true true true true true in
  let r := Preview.mkRender true 2 10 [a1] 100 true in
  let st := Preview.mkAudio ∅ [] 2 in
  let canPlay := fun _ : string => true in
  (Preview.isPlayingChanged c || Preview.isMutedChanged c
   || Preview.volumeChanged c = true)
  /\ NoDup (List.map timeline.id (Preview.elements r))
  /\ NoDup (List.map timeline.id (Preview.activeAudioElementsRef st))
  /\ Preview.audioRefs (fst (Preview.audioEffects canPlay c r st)) !! "a1"
     = Some (Preview.media.mk "a1.mp3" (2 - 0) (1 * (100 / 100)) true false)
  /\ Preview.media.muted (Preview.media.mk "a1.mp3" (2 - 0) (1 * (100 / 100))
                            true false)
     = Preview.finalMuted r a1.
Proof.
  intros a1 c r st canPlay.
  assert (H1 : Preview.isPlayingChanged c || Preview.isMutedChanged c
               || Preview.volumeChanged c = true) by reflexivity.
  assert (H2 : NoDup (List.map timeline.id (Preview.elements r))) by compute_done.
  assert (H3 : NoDup (List.map timeline.id (Preview.activeAudioElementsRef st)))
    by compute_done.
  repeat (split; [assumption|]).
  assert (Hp : Preview.audioRefs (fst (Preview.audioEffects canPlay c r st)) !! "a1"
               = Some (Preview.media.mk "a1.mp3" (2 - 0) (1 * (100 / 100))
                         true false)) by (vm_compute; reflexivity).
  split; [exact Hp|].
  refine (proj1 (commit_applies_mute_and_volume canPlay c r st H1 H2 H3 a1 _ _ Hp)).
  vm_compute. auto.
Defined.

(** *** The video playback binder *)

(** X18: after the time synchronisation effect the bound player stands
    within 0.2 of the clock time, and the effect is idempotent: run again
    with the same clock time it performs no seek, arms no timer and leaves
    the state as it is. *)
Theorem timeSync_settles (r : Preview.Render) (st : Preview.VideoState)
    (v : Preview.media.t) :
  Preview.videoRef st = Some v ->
  let st' := fst (Preview.timeSync r st) in
  (exists v', Preview.videoRef st' = Some v'
              /\ Qabs (Preview.media.currentTime v' - Preview.currentTime r) <= 0.2
              /\ Preview.media.set_currentTime (Preview.media.currentTime v) v' = v)
  /\ Preview.timeSync r st' = (st', []).
Proof.
  intros Hv st'. subst st'.
  destruct (Qlt_le_dec 0.2 (Qabs (Preview.media.currentTime v - Preview.currentTime r)))
    as [Hfar|Hnear].
  - rewrite (timeSync_seek r st v Hv Hfar). cbn [fst].
    split.
    + eexists. split; [reflexivity|]. cbn. split; [apply Qabs_diff_self|].
      by destruct v.
    + eapply timeSync_within; [reflexivity|]. cbn. apply Qabs_diff_self.
  - rewrite (timeSync_within r st v Hv Hnear). cbn [fst]. split.
    + exists v. repeat split; [done.. |]. by destruct v.
    + by apply (timeSync_within r st v).
Qed.

Lemma timeSync_settles_witness :
  let v := Preview.media.mk "clip.mp4" 0 1 false false in
  let st := Preview.mkVideo (Some v) false false false [] 0 in
  let r := Preview.mkRender true 5 20 [] 100 false in
  Preview.videoRef st = Some v
  /\ Preview.timeSync r (fst (Preview.timeSync r st))
     = (fst (Preview.timeSync r st), []).
Proof.
  intros v st r.
  assert (H : Preview.videoRef st = Some v) by reflexivity.
  split; [exact H|].
  exact (proj2 (timeSync_settles r st v H)).
Defined.

Lemma filter_all_due now' (l : list nat) :
  (forall t, In t l -> (t <= now')%nat) ->
  List.filter (fun t => Nat.leb t now') l = l
  /\ List.filter (fun t => negb (Nat.leb t now')) l = [].
Proof.
  induction l as [|t l IH]; intros H; [done|]. simpl.
  assert (Ht : Nat.leb t now' = true) by (apply Nat.leb_le, H; by left).
  rewrite Ht. simpl. destruct IH as [-> ->]; [|done].
  intros t' Ht'. apply H. by right.
Qed.

Lemma filter_pending_nonempty now' (l : list nat) :
  l <> [] ->
  List.filter (fun t => Nat.leb t now') l = [] ->
  List.filter (fun t => negb (Nat.leb t now')) l <> [].
Proof.
  destruct l as [|t l]; [done|]. intros _. simpl.
  destruct (Nat.leb t now'); [discriminate | done].
Qed.

(** X19: a raised blocker always has a reset timer pending, and every effect
    and handler of the video binder, as well as the passage of time, keeps
    it so; hence the time reports are never silenced for good: once the last
    pending timer is due the blocker is down and no timer is left. *)
Theorem blocker_always_released (canPlay : string -> bool) (r : Preview.Render)
    (st : Preview.VideoState) (ms : nat) :
  Preview.blockerArmed st ->
  Preview.blockerArmed (fst (Preview.timeSync r st))
  /\ Preview.blockerArmed (fst (Preview.playPause canPlay r st))
  /\ Preview.blockerArmed (fst (Preview.handlePlay r st))
  /\ Preview.blockerArmed (fst (Preview.handleRestart st))
  /\ Preview.blockerArmed (fst (Preview.handleVideoEnd st))
  /\ Preview.blockerArmed (fst (Preview.handleWaiting st))
  /\ Preview.blockerArmed (fst (Preview.handlePlaying st))
  /\ Preview.blockerArmed (fst (Preview.handleTimeUpdate st))
  /\ Preview.blockerArmed (fst (Preview.applyVideoVolume r st))
  /\ Preview.blockerArmed (Preview.elapse ms st)
  /\ ((forall t, In t (Preview.timers st) -> (t <= Preview.now st + ms)%nat) ->
        Preview.timeUpdateBlocker (Preview.elapse ms st) = false
        /\ Preview.timers (Preview.elapse ms st) = []).
Proof.
  intros Harmed. unfold Preview.blockerArmed in *.
  repeat split.
  - unfold Preview.timeSync. destruct (Preview.videoRef st); [|done].
    destruct (gt _ _); [|done]. cbn. intros _. by destruct (Preview.timers st).
  - unfold Preview.playPause. destruct (Preview.videoRef st) as [v|]; [|done].
    destruct (Preview.isPlaying r); [|done].
    destruct (Preview.videoEnded st && _); destruct (canPlay _); cbn; done.
  - unfold Preview.handlePlay, andThen, Preview.handleRestart.
    by destruct (_ || _).
  - done.
  - done.
  - done.
  - done.
  - assert (fst (Preview.handleTimeUpdate st) = st) as ->; [|done].
    unfold Preview.handleTimeUpdate. destruct (Preview.videoRef st); [|done].
    by destruct (Preview.timeUpdateBlocker st).
  - unfold Preview.applyVideoVolume. by destruct (Preview.videoRef st).
  - unfold Preview.elapse. cbn.
    destruct (List.filter (fun t => Nat.leb t (Preview.now st + ms))
                (Preview.timers st)) eqn:Hdue; [|done].
    intros Hb. apply filter_pending_nonempty; auto.
  - destruct (filter_all_due (Preview.now st + ms) (Preview.timers st) H)
      as [Hdue _].
    unfold Preview.elapse. cbn. rewrite Hdue.
    destruct (Preview.timers st) eqn:Ht; [|done].
    destruct (Preview.timeUpdateBlocker st); [|done].
    by destruct (Harmed eq_refl).
  - destruct (filter_all_due (Preview.now st + ms) (Preview.timers st) H)
      as [_ Hleft].
    unfold Preview.elapse. cbn. exact Hleft.
Qed.

Lemma blocker_always_released_witness :
  let st := fst (Preview.timeSync (Preview.mkRender true 5 20 [] 100 false)
                   (Preview.mkVideo (Some (Preview.media.mk "clip.mp4" 0 1 false false))
                      false false false [] 0)) in
  Preview.blockerArmed st
  /\ Preview.timeUpdateBlocker st = true
  /\ Preview.timeUpdateBlocker (Preview.elapse 50 st) = false.
Proof.
  intros st.
  assert (H : Preview.blockerArmed st) by (intros _; vm_compute; discriminate).
  split; [exact H|]. split; [reflexivity|].
  destruct (blocker_always_released (fun _ => true)
              (Preview.mkRender true 5 20 [] 100 false) st 50 H)
    as (_ & _ & _ & _ & _ & _ & _ & _ & _ & _ & Hrel).
  apply Hrel. intros t [<-|[]]. apply Nat.leb_le. reflexivity.
Defined.

(** X20: the Play button always leaves the Ended flag cleared, so the play
    effect that follows it, whatever the clock then shows, never takes its
    own reset branch: it sends no time update and seeks nothing.  After the
    player reported the end of the media, the button always requests a
    restart before it requests play. *)
Theorem play_button_restarts_once (canPlay : string -> bool)
    (r r' : Preview.Render) (st : Preview.VideoState) :
  Preview.videoEnded (fst (Preview.handlePlay r st)) = false
  /\ (forall t, ~ In (Preview.onTimeUpdate t)
                  (snd (Preview.playPause canPlay r' (fst (Preview.handlePlay r st)))))
  /\ (forall t, ~ In (Preview.video_seek t)
                  (snd (Preview.playPause canPlay r' (fst (Preview.handlePlay r st)))))
  /\ snd (Preview.handlePlay r (fst (Preview.handleVideoEnd st)))
     = [Preview.onRestart; Preview.onPlay]
  /\ snd (Preview.handleVideoEnd st) = [Preview.onPause].
Proof.
  assert (Hended : Preview.videoEnded (fst (Preview.handlePlay r st)) = false).
  { unfold Preview.handlePlay, andThen, Preview.handleRestart.
    destruct (Preview.videoEnded st) eqn:He; cbn; [done|].
    destruct (ge _ _); cbn; done. }
  assert (Hacts : forall act,
            In act (snd (Preview.playPause canPlay r' (fst (Preview.handlePlay r st)))) ->
            act = Preview.video_play \/ act = Preview.video_play_error
            \/ act = Preview.onPause \/ act = Preview.video_pause).
  { intros act. unfold Preview.playPause.
    destruct (Preview.videoRef _) as [v|]; [|intros []].
    rewrite Hended. cbn [andb].
    destruct (Preview.isPlaying r'); [destruct (canPlay _)|]; cbn; intuition auto. }
  split; [exact Hended|]. repeat split.
  - intros t Hin. apply Hacts in Hin. intuition discriminate.
  - intros t Hin. apply Hacts in Hin. intuition discriminate.
Qed.

(** *** Isolation of the audio effects *)

Section AudioIsolationFacts.
Import Preview.
Variable canPlay : string -> bool.
Implicit Types (st : AudioState) (r : Render) (a : TimelineElement).

Lemma andThen_actions {S A} (P : A -> Prop) (f g : Eff S A) (s : S) :
  (forall s0 act, In act (snd (f s0)) -> P act) ->
  (forall s0 act, In act (snd (g s0)) -> P act) ->
  forall act, In act (snd (andThen f g s)) -> P act.
Proof.
  intros Hf Hg act. rewrite andThen_snd, in_app_iff. intros [H|H]; eauto.
Qed.

Lemma forEach_actions {S A X} (P : A -> Prop) (f : X -> Eff S A) (l : list X) :
  (forall x (s : S) act, In act (snd (f x s)) -> P act) ->
  forall (s : S) act, In act (snd (forEach f l s)) -> P act.
Proof.
  intros Hf. induction l as [|x l IH]; intros s act; [intros []|].
  rewrite forEach_cons_snd, in_app_iff. intros [H|H]; eauto.
Qed.

Lemma playAudio_actions k p act :
  In act (snd (playAudio canPlay k p)) -> isAudioAction act = true.
Proof.
  unfold playAudio. destruct (canPlay _); simpl; intuition (subst; done).
Qed.

Lemma createAudio_actions r a st act :
  In act (snd (createAudio canPlay r a st)) -> isAudioAction act = true.
Proof.
  unfold createAudio. destruct (audioRefs st !! timeline.id a); [intros []|].
  destruct (isPlaying r).
  - pose proof (playAudio_actions (timeline.id a) (newAudio r a) act) as Hp.
    destruct (playAudio _ _ _) as [q acts]. cbn [snd] in *.
    simpl. intuition (subst; done).
  - simpl. intuition (subst; done).
Qed.

Lemma removeAudio_actions active k st act :
  In act (snd (removeAudio active k st)) -> isAudioAction act = true.
Proof.
  unfold removeAudio. destruct (isActiveId active k); simpl;
    intuition (subst; done).
Qed.

Lemma reconcileAudio_actions r st act :
  In act (snd (reconcileAudio canPlay r st)) -> isAudioAction act = true.
Proof.
  revert act. unfold reconcileAudio.
  apply (andThen_actions (fun act => isAudioAction act = true)).
  - apply (forEach_actions (fun act => isAudioAction act = true)).
    apply createAudio_actions.
  - intros st0.
    apply (forEach_actions (fun act => isAudioAction act = true)).
    apply removeAudio_actions.
Qed.

Lemma syncAudioTime_actions r st act :
  In act (snd (syncAudioTime r st)) -> isAudioAction act = true.
Proof.
  rewrite syncAudioTime_snd. destruct (gt _ _); [|intros []].
  revert act. apply (forEach_actions (fun act => isAudioAction act = true)).
  intros a st0 act Hin.
  apply syncAudio_actions in Hin as (p & _ & _ & ->). done.
Qed.

Lemma controlAudioPlayback_actions r st act :
  In act (snd (controlAudioPlayback canPlay r st)) -> isAudioAction act = true.
Proof.
  revert act. unfold controlAudioPlayback.
  apply (forEach_actions (fun act => isAudioAction act = true)).
  clear st. intros a st act. unfold controlAudio.
  destruct (audioRefs st !! timeline.id a) as [p|]; [|intros []].
  destruct (isPlaying r).
  - pose proof (playAudio_actions (timeline.id a)
                  (media.set_muted (finalMuted r a)
                     (media.set_volume (finalVolume r a) p)) act) as Hp.
    destruct (playAudio _ _ _) as [q acts]. exact Hp.
  - simpl. intuition (subst; done).
Qed.

Lemma applyVolume_actions r st : snd (applyVolume r st) = [].
Proof.
  unfold applyVolume.
  destruct (snd (forEach _ (activeAudioElementsRef st) st)) as [|act acts] eqn:H;
    [done|].
  exfalso.
  assert (Hin : In act (snd (forEach
             (fun audio st0 =>
                match audioRefs st0 !! timeline.id audio with
                | Some audioElement =>
                    (mkAudio (<[timeline.id audio :=
                                  media.set_muted (finalMuted r audio)
                                    (media.set_volume (finalVolume r audio)
                                       audioElement)]> (audioRefs st0))
                             (activeAudioElementsRef st0) (lastTimeRef st0), [])
                | None => (st0, [])
                end) (activeAudioElementsRef st) st))) by (rewrite H; by left).
  revert Hin. apply (forEach_actions (fun _ => False)).
  intros a st0 act0. by destruct (audioRefs st0 !! timeline.id a).
Qed.

End AudioIsolationFacts.

(** X21: the audio effects act on audio players only: whichever of them run
    in a commit, and on unmount, none calls onPlay, onPause, onTimeUpdate or
    onRestart and none touches the video player.  In particular a rejected
    start of an audio clip never pauses the timeline, while a rejected start
    of the video player requests a pause. *)
Theorem audio_effects_never_touch_the_clock (canPlay : string -> bool)
    (c : Preview.Changed) (r : Preview.Render) (st : Preview.AudioState)
    (vst : Preview.VideoState) :
  (forall act, In act (snd (Preview.audioEffects canPlay c r st)) ->
     Preview.isAudioAction act = true)
  /\ (forall act, In act (snd (Preview.unmount st)) ->
        Preview.isAudioAction act = true)
  /\ (forall v, Preview.videoRef vst = Some v -> Preview.isPlaying r = true ->
        canPlay (Preview.media.src v) = false ->
        In Preview.onPause (snd (Preview.playPause canPlay r vst))).
Proof.
  split; [|split].
  - unfold Preview.audioEffects.
    apply (andThen_actions (fun act => Preview.isAudioAction act = true)).
    { intros s0 act. unfold Preview.when.
      destruct (_ || _); [apply reconcileAudio_actions | intros []]. }
    intros s0.
    apply (andThen_actions (fun act => Preview.isAudioAction act = true)).
    { intros s1 act. unfold Preview.when.
      destruct (Preview.currentTimeChanged c);
        [apply syncAudioTime_actions | intros []]. }
    intros s1.
    apply (andThen_actions (fun act => Preview.isAudioAction act = true)).
    { intros s2 act. unfold Preview.when.
      destruct (_ || _); [apply controlAudioPlayback_actions | intros []]. }
    intros s2 act. unfold Preview.when.
    destruct (_ || _); [by rewrite applyVolume_actions | intros []].
  - intros act. unfold Preview.unmount. cbn [snd].
    rewrite in_map_iff. intros [k [<- Hk]]. reflexivity.
  - intros v Hv Hplay Hfail. unfold Preview.playPause.
    rewrite Hv, Hplay. cbn [Preview.media.src Preview.media.set_muted].
    assert (Hsrc : forall b : bool, Preview.media.src
                     (if b then Preview.media.set_currentTime 0 v else v)
                   = Preview.media.src v) by (by intros []).
    rewrite Hsrc, Hfail. cbn [snd]. apply in_or_app. right. simpl. auto.
Qed.
